(** * CoapServer: request routing, observation and the thing registry

    A shallow embedding of [packages/binding-coap/src/coap-server.ts];
    that of [packages/binding-coap/src/coap-client.ts] follows it, under
    the heading CoapClient.

    The server class keeps a map from URL slugs to exposed things
    ([expose], [destroy]) and answers every inbound CoAP exchange through
    [handleRequest].  The handler is callback driven: its synchronous part
    registers promise continuations, an interval timer, an event callback
    and [finish] listeners on the response.  Those closures are
    defunctionalised here; the event loop is the function [step], which
    runs the closure that a stimulus selects.

    What lies outside the source is kept to the following.
    - The thing runtime settles its promises in any order and at any time:
      a [Settle] stimulus names the promise.
    - The runtime holds the callback passed to [subscribeEvent] until
      [unsubscribeEvent] is called, and invokes it on an [Emit] stimulus.
    - An interval fires ([Tick]) until [clearInterval].
    - The response is a writable stream: [write] and [end] put a frame on
      the wire unless the stream was ended, [end] ends it, and a stream
      that emits [finish] was ended, by the handler or by the transport.
    - [ContentSerdes], [Helpers], [ProtocolHelpers] and [slugify] are
      signatures. *)

From Stdlib Require Import ZArith NArith String Ascii List Bool Lia.
From stdpp Require Import base option list strings gmap fin_maps pretty.

Open Scope string_scope.

(** ** JavaScript values and helpers *)

Definition Buffer := string.
Definition Error := string.            (* [err.message] *)

Inductive JsValue :=
| JUndefined
| JNull
| JBool (b : bool)
| JNum (z : Z)
| JStr (s : string)
| JObj (json : string).

(** [if (v)] *)
Definition truthy (v : JsValue) : bool :=
  match v with
  | JUndefined | JNull => false
  | JBool b => b
  | JNum z => negb (z =? 0)%Z
  | JStr s => negb (String.eqb s "")
  | JObj _ => true
  end.

(** [if (s)] for a header that is a string or [undefined]. *)
Definition truthy_str (s : option string) : bool :=
  match s with
  | None => false
  | Some s => negb (String.eqb s "")
  end.

(** A call that may throw. *)
Inductive Try (A : Type) :=
| Returns (a : A)
| Throws (err : Error).
Arguments Returns {A} a.
Arguments Throws {A} err.

(** A settled promise. *)
Inductive Settled (A : Type) :=
| Fulfilled (a : A)
| Rejected (err : Error).
Arguments Fulfilled {A} a.
Arguments Rejected {A} err.

(** [s.split("/")] *)
Fixpoint split_slash (s : string) : list string :=
  match s with
  | EmptyString => [""]
  | String c rest =>
      if Ascii.eqb c "/" then "" :: split_slash rest
      else match split_slash rest with
           | [] => [String c ""]
           | w :: ws => String c w :: ws
           end
  end.

(** [l.indexOf(x)] *)
Fixpoint indexOf_from (i : Z) (l : list string) (x : string) : Z :=
  match l with
  | [] => -1
  | y :: l' => if String.eqb y x then i else indexOf_from (i + 1) l' x
  end.
Definition indexOf (l : list string) (x : string) : Z := indexOf_from 0 l x.

(** A property key: [obj[k]] coerces [undefined] to the string "undefined". *)
Definition js_key (k : option string) : string :=
  match k with
  | Some s => s
  | None => "undefined"
  end.

(** ** Things *)

Definition DataSchema := string.

Record Form := {
  href : string;
  contentType : string;
  op : list string
}.

Record PropertyElement := {
  readOnly : bool;
  writeOnly : bool;
  observable : bool;
  p_schema : DataSchema;
  p_forms : list Form
}.

Record ActionElement := {
  input : option DataSchema;
  output : option DataSchema;
  a_forms : list Form
}.

Record EventElement := {
  data : option DataSchema;
  e_forms : list Form
}.

(** The interaction tables are the objects [thing.properties],
    [thing.actions] and [thing.events], read here by own keys only. *)
Record ExposedThing := {
  id : string;
  title : string;
  properties : gmap string PropertyElement;
  actions : gmap string ActionElement;
  events : gmap string EventElement
}.

(** ** Collaborators

    [ContentSerdes], [Helpers], [ProtocolHelpers], [slugify] and the
    JavaScript built-ins are imported by the source; they are signatures
    here. *)

Record Content := { c_type : string; c_body : Buffer }.

Class ContentSerdes := {
  DEFAULT : string;
  TD : string;
  getSupportedMediaTypes : list string;
  getOfferedMediaTypes : list string;
  (* [None] as argument is [undefined]; [None] as result is a throw *)
  getMediaType : option string -> option string;
  valueToContent : JsValue -> option DataSchema -> string -> Try Content;
  contentToValue : option string -> option Buffer -> option DataSchema -> Try JsValue
}.

Class Helpers := {
  getAddresses : list string;
  toUriLiteral : string -> string;
  generateUniqueName : string -> string;
  slugify : string -> string;                      (* [{ lower: true }] *)
  encodeURIComponent : string -> string;
  (* [decodeURI(new URL(req.url).pathname)] *)
  decodedPathname : string -> string;
  (* [ProtocolHelpers.get...ContentType(thing.getThingDescription(), name, "coap")] *)
  getPropertyContentType : ExposedThing -> string -> Try string;
  getActionContentType : ExposedThing -> string -> Try string;
  getEventContentType : ExposedThing -> string -> Try string;
  updatePropertyFormWithTemplate : Form -> option string -> string -> Form;
  updateActionFormWithTemplate : Form -> option string -> string -> Form;
  updateEventFormWithTemplate : Form -> option string -> string -> Form;
  (* [JSON.stringify(thing.getThingDescription())] *)
  stringifyDescription : ExposedThing -> string;
  (* [JSON.stringify(list)] *)
  stringifyList : list string -> string
}.

(** ** The transport's objects *)

(** [res._packet] and [res._request]. *)
Record Packet := {
  p_code : string;
  p_payload : Buffer;
  p_reset : bool;
  p_ack : bool;
  p_token : Buffer;
  p_confirmable : bool;
  p_messageId : N
}.

Record IncomingMessage := {
  method : string;
  url : string;
  Content_Format : option string;       (* [req.headers["Content-Format"]] *)
  Observe : option N;                   (* [req.headers.Observe] *)
  payload : option Buffer
}.

(** What the sink put on the wire for one [write] or [end]. *)
Record Frame := {
  f_code : string;
  f_options : gmap string string;
  f_body : option Buffer;
  f_last : bool
}.

(** The closures passed to [res.on("finish", ...)]. *)
Inductive FinishListener :=
| LogReply                                        (* lines 206-213 *)
| StopObserving                                   (* lines 338-347 *)
| Unsubscribe (thing : ExposedThing) (name : string).   (* lines 564-575 *)

(** The output sink.  [ended] and [sent] are the sink's own state: a sink
    that was ended accepts no further frame. *)
Record OutgoingMessage := {
  code : string;
  options : gmap string string;
  _packet : Packet;
  _request : Packet;
  ended : bool;
  sent : list Frame;
  finishListeners : list FinishListener
}.

(** Calls the handler makes on its collaborators, in program order. *)
Inductive Call :=
| RegistryGet (slug : option string)              (* [this.things.get] *)
| RegistryKeys                                    (* [this.things.keys] *)
| ReadProperty (thingId name : string)
| WriteProperty (thingId name : string) (v : JsValue)
| InvokeAction (thingId name : string) (v : JsValue)
| SubscribeEvent (thingId name : string)
| UnsubscribeEvent (thingId name : string)
| SetInterval (ms : N)
| ClearInterval
| ResSend (packet : Packet)                       (* [res._send] *)
| ResWrite (body : Buffer)                        (* [res.write] *)
| ResEnd (body : option Buffer)                   (* [res.end] *)
| OnFinish (l : FinishListener).                  (* [res.on("finish", l)] *)

(** The variables a property closure captures. *)
Record PropertyRef := {
  pr_thing : ExposedThing;
  pr_name : string;
  pr_property : PropertyElement
}.

Record ActionRef := {
  ar_thing : ExposedThing;
  ar_name : string;
  ar_action : ActionElement
}.

Record EventRef := {
  er_thing : ExposedThing;
  er_name : string;
  er_event : EventElement
}.

(** The [.then]/[.catch] pairs chained on the runtime's promises. *)
Inductive Continuation :=
| AfterRead (r : PropertyRef)                     (* lines 292-316 *)
| AfterObservedRead (r : PropertyRef)             (* lines 323-358 *)
| AfterWrite                                      (* lines 384-397 *)
| AfterInvoke (r : ActionRef)                     (* lines 435-464 *)
| AfterSubscribe.                                 (* lines 547-563 *)

(** [oInterval]: the callback of [setInterval] and whether it still runs. *)
Record Timer := {
  running : bool;
  t_ref : PropertyRef
}.

(** One request/response exchange and everything its closures hold. *)
Record Exchange := {
  res : OutgoingMessage;
  oInterval : option Timer;
  promises : gmap nat Continuation;     (* pending runtime promises *)
  fresh : nat;
  listener : option EventRef;           (* callback held by the runtime *)
  calls : list Call;
  thrown : option Error                 (* exception that left the handler *)
}.

Definition with_res (f : OutgoingMessage -> OutgoingMessage) (x : Exchange) : Exchange :=
  {| res := f (res x); oInterval := oInterval x; promises := promises x;
     fresh := fresh x; listener := listener x; calls := calls x;
     thrown := thrown x |}.

Definition call (c : Call) (x : Exchange) : Exchange :=
  {| res := res x; oInterval := oInterval x; promises := promises x;
     fresh := fresh x; listener := listener x; calls := calls x ++ [c];
     thrown := thrown x |}.

Definition then_ (f g : Exchange -> Exchange) : Exchange -> Exchange :=
  fun x => g (f x).
Notation "f >>> g" := (then_ f g) (at level 61, left associativity).

(** [res.code = c] *)
Definition set_code (c : string) : Exchange -> Exchange :=
  with_res (fun r =>
    {| code := c; options := options r; _packet := _packet r;
       _request := _request r; ended := ended r; sent := sent r;
       finishListeners := finishListeners r |}).

(** [res.setOption(k, v)] *)
Definition set_option (k v : string) : Exchange -> Exchange :=
  with_res (fun r =>
    {| code := code r; options := <[k := v]> (options r); _packet := _packet r;
       _request := _request r; ended := ended r; sent := sent r;
       finishListeners := finishListeners r |}).

(** The sink takes a frame unless it was ended; [last] ends it. *)
Definition accept (body : option Buffer) (last : bool) (r : OutgoingMessage) : OutgoingMessage :=
  {| code := code r; options := options r; _packet := _packet r;
     _request := _request r; ended := ended r || last;
     sent := if ended r then sent r
             else sent r ++ [{| f_code := code r; f_options := options r;
                                f_body := body; f_last := last |}];
     finishListeners := finishListeners r |}.

(** [res.write(body)] *)
Definition res_write (body : Buffer) : Exchange -> Exchange :=
  call (ResWrite body) >>> with_res (accept (Some body) false).

(** [res.end(body)], [res.end()] *)
Definition res_end (body : option Buffer) : Exchange -> Exchange :=
  call (ResEnd body) >>> with_res (accept body true).

(** [res.on("finish", l)] *)
Definition on_finish (l : FinishListener) : Exchange -> Exchange :=
  call (OnFinish l) >>>
  with_res (fun r =>
    {| code := code r; options := options r; _packet := _packet r;
       _request := _request r; ended := ended r; sent := sent r;
       finishListeners := finishListeners r ++ [l] |}).

(** [res.code = c; res.end(body)] *)
Definition respond (c : string) (body : option Buffer) : Exchange -> Exchange :=
  set_code c >>> res_end body.

(** Calling a runtime method that returns a promise, and chaining [k] on it. *)
Definition await (c : Call) (k : Continuation) (x : Exchange) : Exchange :=
  {| res := res x; oInterval := oInterval x;
     promises := <[fresh x := k]> (promises x);
     fresh := S (fresh x); listener := listener x; calls := calls x ++ [c];
     thrown := thrown x |}.

Definition throw (err : Error) (x : Exchange) : Exchange :=
  {| res := res x; oInterval := oInterval x; promises := promises x;
     fresh := fresh x; listener := listener x; calls := calls x;
     thrown := Some err |}.

(** The response as the transport creates it for a request: nothing was
    written to it, and nobody listens to it yet. *)
Record Prepared := {
  r_code : string;
  r_options : gmap string string;
  r_packet : Packet;
  r_request : Packet
}.

(** The exchange as the transport hands it to the handler. *)
Definition begin (res0 : Prepared) : Exchange :=
  {| res := {| code := r_code res0; options := r_options res0;
               _packet := r_packet res0; _request := r_request res0;
               ended := false; sent := []; finishListeners := [] |};
     oInterval := None; promises := ∅; fresh := 0;
     listener := None; calls := []; thrown := None |}.

(** ** The server *)

Record CoapServer := {
  things : gmap string ExposedThing;
  _sock : option N                      (* the bound port while listening *)
}.

Definition scheme : string := "coap".
Definition PROPERTY_DIR : string := "properties".
Definition ACTION_DIR : string := "actions".
Definition EVENT_DIR : string := "events".

(** [getPort()]: larger than -1 exactly while the server is running. *)
Definition getPort (srv : CoapServer) : Z :=
  match _sock srv with
  | Some p => Z.of_N p
  | None => -1
  end.

Definition set_things (m : gmap string ExposedThing) (srv : CoapServer) : CoapServer :=
  {| things := m; _sock := _sock srv |}.

Section Server.
Context {serdes : ContentSerdes} {helpers : Helpers}.

(** *** expose (lines 100-177) *)

(** Lines 125-138; [form.op] is set before the test of [!form.op]. *)
Definition property_ops (p : PropertyElement) : list string :=
  (if readOnly p then ["readproperty"]
   else if writeOnly p then ["writeproperty"]
   else ["readproperty"; "writeproperty"])
  ++ (if observable p then ["observeproperty"; "unobserveproperty"] else []).

Definition with_op (ops : list string) (form : Form) : Form :=
  {| href := href form; contentType := contentType form; op := ops |}.

Definition push_property_form (base type : string) (tdTemplate : option string)
    (propertyName : string) (p : PropertyElement) : option PropertyElement :=
  let href := base ++ "/" ++ PROPERTY_DIR ++ "/" ++ encodeURIComponent propertyName in
  let form := updatePropertyFormWithTemplate
                {| href := href; contentType := type; op := [] |} tdTemplate propertyName in
  Some {| readOnly := readOnly p; writeOnly := writeOnly p;
          observable := observable p; p_schema := p_schema p;
          p_forms := p_forms p ++ [with_op (property_ops p) form] |}.

(** The action form's [op] is the string [invokeaction], here a list of one. *)
Definition push_action_form (base type : string) (tdTemplate : option string)
    (actionName : string) (a : ActionElement) : option ActionElement :=
  let href := base ++ "/" ++ ACTION_DIR ++ "/" ++ encodeURIComponent actionName in
  let form := updateActionFormWithTemplate
                {| href := href; contentType := type; op := [] |} tdTemplate actionName in
  Some {| input := input a; output := output a;
          a_forms := a_forms a ++ [with_op ["invokeaction"] form] |}.

Definition push_event_form (base type : string) (tdTemplate : option string)
    (eventName : string) (e : EventElement) : option EventElement :=
  let href := base ++ "/" ++ EVENT_DIR ++ "/" ++ encodeURIComponent eventName in
  let form := updateEventFormWithTemplate
                {| href := href; contentType := type; op := [] |} tdTemplate eventName in
  Some {| data := data e;
          e_forms := e_forms e ++ [with_op ["subscribeevent"; "unsubscribeevent"] form] |}.

(** The body of the two outer loops, for one address and one media type. *)
Definition bind_forms (srv : CoapServer) (urlPath : string) (tdTemplate : option string)
    (address type : string) (thing : ExposedThing) : ExposedThing :=
  let base := scheme ++ "://" ++ address ++ ":" ++ pretty (getPort srv)
                ++ "/" ++ encodeURIComponent urlPath in
  {| id := id thing; title := title thing;
     properties := map_imap (push_property_form base type tdTemplate) (properties thing);
     actions := map_imap (push_action_form base type tdTemplate) (actions thing);
     events := map_imap (push_event_form base type tdTemplate) (events thing) |}.

Definition fill_in_binding_data (srv : CoapServer) (urlPath : string)
    (tdTemplate : option string) (thing : ExposedThing) : ExposedThing :=
  foldl (fun thing address =>
           foldl (fun thing type => bind_forms srv urlPath tdTemplate address type thing)
                 thing getOfferedMediaTypes)
        thing getAddresses.

Definition urlPath_of (srv : CoapServer) (thing : ExposedThing) : string :=
  let urlPath := slugify (title thing) in
  if bool_decide (is_Some (things srv !! urlPath))
  then generateUniqueName urlPath
  else urlPath.

(** The registry holds the thing object itself, so the forms pushed after
    [this.things.set] are seen through the registry: the entry is the thing
    as it is when [expose] returns. *)
Definition expose (srv : CoapServer) (thing : ExposedThing) (tdTemplate : option string)
    : CoapServer * ExposedThing * Settled unit :=
  let urlPath := urlPath_of srv thing in
  if negb (getPort srv =? -1)%Z then
    let thing' := fill_in_binding_data srv urlPath tdTemplate thing in
    (set_things (<[urlPath := thing']> (things srv)) srv, thing', Fulfilled tt)
  else (srv, thing, Fulfilled tt).

(** *** destroy (lines 179-197) *)

Definition destroy_visit (thingId : string)
    (acc : gmap string ExposedThing * option ExposedThing) (name : string)
    : gmap string ExposedThing * option ExposedThing :=
  match acc.1 !! name with
  | Some expThing =>
      if String.eqb (id expThing) thingId
      then (delete name acc.1, Some expThing)
      else acc
  | None => acc
  end.

(** [Array.from(this.things.keys())]: every key once.  A JavaScript map
    iterates in insertion order; here the order is the one of the finite
    map, and no statement depends on it. *)
Definition keys (m : gmap string ExposedThing) : list string := (map_to_list m).*1.

Definition destroy (srv : CoapServer) (thingId : string) : CoapServer * Settled bool :=
  let r := foldl (destroy_visit thingId) (things srv, None) (keys (things srv)) in
  (set_things r.1 srv, Fulfilled (bool_decide (is_Some r.2))).

(** *** handleRequest (lines 199-610) *)

Definition serialize_property (r : PropertyRef) (value : JsValue) : Try Content :=
  match getPropertyContentType (pr_thing r) (pr_name r) with
  | Returns contentType =>
      valueToContent value (Some (p_schema (pr_property r))) contentType
  | Throws err => Throws err
  end.

Definition serialize_output (r : ActionRef) (output_ : JsValue) : Try Content :=
  match getActionContentType (ar_thing r) (ar_name r) with
  | Returns contentType => valueToContent output_ (output (ar_action r)) contentType
  | Throws err => Throws err
  end.

Definition serialize_event (r : EventRef) (d : JsValue) : Try Content :=
  match getEventContentType (er_thing r) (er_name r) with
  | Returns contentType => valueToContent d (data (er_event r)) contentType
  | Throws err => Throws err
  end.

(** Lines 218-234. *)
Inductive Admission :=
| Admit (contentType : option string)
| Unsupported
| Raise (err : Error).

Definition admission (req : IncomingMessage) : Admission :=
  let contentType := Content_Format req in
  if String.eqb (method req) "PUT" || String.eqb (method req) "POST" then
    if negb (truthy_str contentType) && bool_decide (is_Some (payload req)) then
      Admit (Some DEFAULT)
    else
      match getMediaType contentType with
      | Some mediaType =>
          if (indexOf getSupportedMediaTypes mediaType <? 0)%Z
          then Unsupported
          else Admit contentType
      | None => Raise "TypeError"
      end
  else Admit contentType.

Definition set_interval (r : PropertyRef) (x : Exchange) : Exchange :=
  {| res := res x; oInterval := Some {| running := true; t_ref := r |};
     promises := promises x; fresh := fresh x; listener := listener x;
     calls := calls x ++ [SetInterval 100]; thrown := thrown x |}.

Definition clear_interval (x : Exchange) : Exchange :=
  {| res := res x;
     oInterval := (fun t => {| running := false; t_ref := t_ref t |}) <$> oInterval x;
     promises := promises x; fresh := fresh x; listener := listener x;
     calls := calls x ++ [ClearInterval]; thrown := thrown x |}.

Definition set_listener (l : option EventRef) (x : Exchange) : Exchange :=
  {| res := res x; oInterval := oInterval x; promises := promises x;
     fresh := fresh x; listener := l; calls := calls x; thrown := thrown x |}.

(** Lines 481-491: the packet is [res._packet] itself, so its fields stay
    written after [_send]; token and confirmable are then restored. *)
Definition acknowledgement (packet : Packet) : Packet :=
  {| p_code := "0.00"; p_payload := ""; p_reset := false; p_ack := true;
     p_token := ""; p_confirmable := p_confirmable packet;
     p_messageId := p_messageId packet |}.

Definition restore (request packet : Packet) : Packet :=
  {| p_code := p_code packet; p_payload := p_payload packet;
     p_reset := p_reset packet; p_ack := p_ack packet;
     p_token := p_token request; p_confirmable := p_confirmable request;
     p_messageId := p_messageId packet |}.

Definition set_packet (f : OutgoingMessage -> Packet) : Exchange -> Exchange :=
  with_res (fun r =>
    {| code := code r; options := options r; _packet := f r;
       _request := _request r; ended := ended r; sent := sent r;
       finishListeners := finishListeners r |}).

Definition send_acknowledgement (x : Exchange) : Exchange :=
  let packet := acknowledgement (_packet (res x)) in
  (set_packet (fun _ => packet) >>> call (ResSend packet) >>>
   set_packet (fun r => restore (_request r) (_packet r))) x.

Definition not_found : Exchange -> Exchange := respond "4.04" (Some "Not Found").
Definition method_not_allowed : Exchange -> Exchange :=
  respond "4.05" (Some "Method Not Allowed").

Definition uri (srv : CoapServer) (address name : string) : string :=
  scheme ++ "://" ++ toUriLiteral address ++ ":" ++ pretty (getPort srv)
    ++ "/" ++ encodeURIComponent name.

(** Lines 244-258: the list built for [GET /]. *)
Definition uris (srv : CoapServer) : list string :=
  flat_map (fun address => map (uri srv address) (keys (things srv))) getAddresses.

Definition listing (srv : CoapServer) (req : IncomingMessage) : Exchange -> Exchange :=
  if String.eqb (method req) "GET" then
    set_option "Content-Format" DEFAULT >>> set_code "2.05" >>>
    (fun x => foldl (fun x _ => call RegistryKeys x) x getAddresses) >>>
    res_end (Some (stringifyList (uris srv)))
  else method_not_allowed.

Definition thing_root (thing : ExposedThing) (req : IncomingMessage) : Exchange -> Exchange :=
  if String.eqb (method req) "GET" then
    set_option "Content-Format" TD >>> set_code "2.05" >>>
    res_end (Some (stringifyDescription thing))
  else method_not_allowed.

Definition on_property (contentType : option string) (req : IncomingMessage)
    (r : PropertyRef) : Exchange -> Exchange :=
  let thing := pr_thing r in
  let property := pr_property r in
  if String.eqb (method req) "GET" then
    match Observe req with
    | None => await (ReadProperty (id thing) (pr_name r)) (AfterRead r)
    | Some _ => set_interval r
    end
  else if String.eqb (method req) "PUT" then
    if negb (readOnly property) then
      match contentToValue contentType (payload req) (Some (p_schema property)) with
      | Throws _ => respond "4.00" (Some "Invalid Data")
      | Returns value => await (WriteProperty (id thing) (pr_name r) value) AfterWrite
      end
    else respond "4.00" (Some "Property readOnly")
  else method_not_allowed.

Definition on_action (contentType : option string) (req : IncomingMessage)
    (r : ActionRef) : Exchange -> Exchange :=
  if String.eqb (method req) "POST" then
    match contentToValue contentType (payload req) (input (ar_action r)) with
    | Throws _ => respond "4.00" (Some "Invalid Input Data")
    | Returns input_ => await (InvokeAction (id (ar_thing r)) (ar_name r) input_) (AfterInvoke r)
    end
  else method_not_allowed.

Definition on_event (req : IncomingMessage) (r : EventRef) : Exchange -> Exchange :=
  if String.eqb (method req) "GET" then
    match Observe req with
    | Some 0%N =>
        send_acknowledgement >>>
        set_listener (Some r) >>>
        await (SubscribeEvent (id (er_thing r)) (er_name r)) AfterSubscribe >>>
        on_finish (Unsubscribe (er_thing r) (er_name r))
    | Some _ =>
        respond "5.01" (Some "node-coap issue: no GET cancellation, send RST")
    | None => respond "4.00" (Some "No Observe Option")
    end
  else method_not_allowed.

(** Lines 236-609, after the admission check fixed [contentType]. *)
Definition route (srv : CoapServer) (req : IncomingMessage) (contentType : option string)
    : Exchange -> Exchange :=
  let segments := split_slash (decodedPathname (url req)) in
  if bool_decide (segments !! 1 = Some "") then listing srv req
  else
    call (RegistryGet (segments !! 1)) >>>
    match segments !! 1 ≫= (fun slug => things srv !! slug) with
    | Some thing =>
        let name := js_key (segments !! 3) in
        if Nat.eqb (length segments) 2 || bool_decide (segments !! 2 = Some "") then
          thing_root thing req
        else if bool_decide (segments !! 2 = Some PROPERTY_DIR) then
          match properties thing !! name with
          | Some property =>
              on_property contentType req
                {| pr_thing := thing; pr_name := name; pr_property := property |}
          | None => not_found
          end
        else if bool_decide (segments !! 2 = Some ACTION_DIR) then
          match actions thing !! name with
          | Some action =>
              on_action contentType req
                {| ar_thing := thing; ar_name := name; ar_action := action |}
          | None => not_found
          end
        else if bool_decide (segments !! 2 = Some EVENT_DIR) then
          match events thing !! name with
          | Some event =>
              on_event req {| er_thing := thing; er_name := name; er_event := event |}
          | None => not_found
          end
        else not_found
    | None => not_found
    end.

Definition handleRequest (srv : CoapServer) (req : IncomingMessage)
    (res0 : Prepared) : Exchange :=
  (on_finish LogReply >>>
   match admission req with
   | Admit contentType => route srv req contentType
   | Unsupported => respond "4.15" (Some "Unsupported Media Type")
   | Raise err => throw err
   end) (begin res0).

(** *** The closures, run by the event loop *)

Inductive Stimulus :=
| Tick                                   (* the interval elapses *)
| Settle (p : nat) (r : Settled JsValue) (* a runtime promise settles *)
| Emit (d : JsValue)                     (* the runtime calls the event callback *)
| Finish.                                (* the response emits [finish] *)

Definition internal_error (err : Error) : Exchange -> Exchange :=
  respond "5.00" (Some err).

(** Lines 319-359: the interval callback. *)
Definition on_tick (x : Exchange) : Exchange :=
  match oInterval x with
  | Some t =>
      if running t
      then await (ReadProperty (id (pr_thing (t_ref t))) (pr_name (t_ref t)))
                 (AfterObservedRead (t_ref t)) x
      else x
  | None => x
  end.

Definition resume (k : Continuation) (r : Settled JsValue) : Exchange -> Exchange :=
  match k, r with
  | AfterRead ref, Fulfilled value =>
      match serialize_property ref value with
      | Returns content =>
          set_option "Content-Format" (c_type content) >>> set_code "2.05" >>>
          res_end (Some (c_body content))
      | Throws err => internal_error err
      end
  | AfterObservedRead ref, Fulfilled value =>
      match serialize_property ref value with
      | Returns content =>
          set_option "Content-Format" (c_type content) >>> set_code "2.05" >>>
          res_write (c_body content) >>>
          on_finish StopObserving
      | Throws err => internal_error err
      end
  | AfterWrite, Fulfilled _ => respond "2.04" (Some "Changed")
  | AfterInvoke ref, Fulfilled output_ =>
      if truthy output_ then
        match serialize_output ref output_ with
        | Returns content =>
            set_option "Content-Format" (c_type content) >>> set_code "2.05" >>>
            res_end (Some (c_body content))
        | Throws err => internal_error err
        end
      else respond "2.04" None
  | AfterSubscribe, Fulfilled _ => res_end None
  | AfterSubscribe, Rejected _ => respond "5.00" None
  | _, Rejected err => internal_error err
  end.

Definition forget (p : nat) (x : Exchange) : Exchange :=
  {| res := res x; oInterval := oInterval x; promises := delete p (promises x);
     fresh := fresh x; listener := listener x; calls := calls x;
     thrown := thrown x |}.

Definition on_settle (p : nat) (r : Settled JsValue) (x : Exchange) : Exchange :=
  match promises x !! p with
  | Some k => resume k r (forget p x)
  | None => x
  end.

(** Lines 498-535: the callback given to [subscribeEvent]. *)
Definition on_data (ref : EventRef) (d : JsValue) : Exchange -> Exchange :=
  match serialize_event ref d with
  | Throws _ => respond "5.00" (Some "Invalid Event Data")
  | Returns content =>
      set_option "Content-Format" (c_type content) >>> set_code "2.05" >>>
      res_write (c_body content)
  end.

Definition on_emit (d : JsValue) (x : Exchange) : Exchange :=
  match listener x with
  | Some ref => on_data ref d x
  | None => x
  end.

Definition run_listener (x : Exchange) (l : FinishListener) : Exchange :=
  match l with
  | LogReply => x
  | StopObserving => (clear_interval >>> res_end None) x
  | Unsubscribe thing name =>
      (call (UnsubscribeEvent (id thing) name) >>> set_listener None) x
  end.

(** A sink that emits [finish] is closed. *)
Definition close (r : OutgoingMessage) : OutgoingMessage :=
  {| code := code r; options := options r; _packet := _packet r;
     _request := _request r; ended := true; sent := sent r;
     finishListeners := finishListeners r |}.

Definition on_finished (x : Exchange) : Exchange :=
  foldl run_listener (with_res close x) (finishListeners (res x)).

Definition step (x : Exchange) (s : Stimulus) : Exchange :=
  match s with
  | Tick => on_tick x
  | Settle p r => on_settle p r x
  | Emit d => on_emit d x
  | Finish => on_finished x
  end.

Definition run (x : Exchange) (ss : list Stimulus) : Exchange := foldl step x ss.

End Server.

(** ** Vocabulary of the properties *)

Section Vocabulary.
Context {serdes : ContentSerdes} {helpers : Helpers}.

(** The request path names [/slug/dir/name...]. *)
Definition addresses (req : IncomingMessage) (slug dir name : string) : Prop :=
  let segments := split_slash (decodedPathname (url req)) in
  segments !! 1 = Some slug /\ segments !! 2 = Some dir /\ segments !! 3 = Some name.

(** The exchange when [route] is entered. *)
Definition entered (res0 : Prepared) : Exchange :=
  on_finish LogReply (begin res0).

(** The exchange once the thing under [slug] was looked up. *)
Definition looked_up (slug : string) (res0 : Prepared) : Exchange :=
  call (RegistryGet (Some slug)) (entered res0).

(** An ended sink stays ended and takes no further frame. *)
Definition sealed (f : Exchange -> Exchange) : Prop :=
  forall x, ended (res x) = true ->
    ended (res (f x)) = true /\ sent (res (f x)) = sent (res x).

(** An exchange that has been answered at once: no promise is pending, no
    timer and no callback exist, and the only [finish] listener logs. *)
Definition answered (x : Exchange) : Prop :=
  promises x = ∅ /\ oInterval x = None /\ listener x = None
  /\ finishListeners (res x) = [LogReply].

(** The states an exchange goes through from [x0] on. *)
Inductive reachable (x0 : Exchange) : Exchange -> Prop :=
| reach_start : reachable x0 x0
| reach_step x s : reachable x0 x -> reachable x0 (step x s).

(** What every state of a property observation satisfies: the interval
    callback reads [ref], every pending promise is one of its reads, and
    the runtime holds no event callback. *)
Definition polling (ref : PropertyRef) (x : Exchange) : Prop :=
  (exists t, oInterval x = Some t /\ t_ref t = ref)
  /\ (forall p k, promises x !! p = Some k -> k = AfterObservedRead ref)
  /\ listener x = None
  /\ (forall l, l ∈ finishListeners (res x) -> l = LogReply \/ l = StopObserving).

(** What every state of an event subscription satisfies. *)
Definition pushing (ref : EventRef) (x : Exchange) : Prop :=
  finishListeners (res x) = [LogReply; Unsubscribe (er_thing ref) (er_name ref)]
  /\ oInterval x = None
  /\ (forall p k, promises x !! p = Some k -> k = AfterSubscribe)
  /\ (listener x = Some ref \/ listener x = None).

(** The read of one tick failed: the promise was rejected, or the value
    it resolved to could not be serialised. *)
Definition failed_read (ref : PropertyRef) (r : Settled JsValue) (err : Error) : Prop :=
  r = Rejected err
  \/ exists value, r = Fulfilled value /\ serialize_property ref value = Throws err.

(** Promise numbers are handed out in order: none from [fresh] on is in use. *)
Definition numbered (x : Exchange) : Prop :=
  forall p, fresh x <= p -> promises x !! p = None.

(** Once the runtime dropped the callback, [f] does not bring it back. *)
Definition muted (f : Exchange -> Exchange) : Prop :=
  forall x, listener x = None -> listener (f x) = None.

End Vocabulary.

(** ** Vocabulary of the further properties *)

(** No [/] occurs in the string. *)
Fixpoint slashless (s : string) : bool :=
  match s with
  | EmptyString => true
  | String c rest => negb (Ascii.eqb c "/") && slashless rest
  end.

Definition is_read (c : Call) : bool :=
  match c with ReadProperty _ _ => true | _ => false end.

Definition is_write (c : Call) : bool :=
  match c with ResWrite _ => true | _ => false end.

Definition is_stop (l : FinishListener) : bool :=
  match l with StopObserving => true | _ => false end.

(** The thing a call on the runtime is made on. *)
Definition runtime_thing (c : Call) : option string :=
  match c with
  | ReadProperty thingId _ | WriteProperty thingId _ _ | InvokeAction thingId _ _
  | SubscribeEvent thingId _ | UnsubscribeEvent thingId _ => Some thingId
  | _ => None
  end.

(** The last frame of a response that was answered once. *)
Definition reply (c : string) (opts : gmap string string) (body : option Buffer) : Frame :=
  {| f_code := c; f_options := opts; f_body := body; f_last := true |}.

Section FurtherVocabulary.
Context {serdes : ContentSerdes} {helpers : Helpers}.

(** Nothing is registered under the path: the thing is unknown, or the
    thing is known and the path names neither its root nor one of its
    properties, actions or events. *)
Definition missing (srv : CoapServer) (req : IncomingMessage) : Prop :=
  let segments := split_slash (decodedPathname (url req)) in
  segments !! 1 <> Some ""
  /\ match segments !! 1 ≫= (fun slug => things srv !! slug) with
     | None => True
     | Some thing =>
         length segments <> 2 /\ segments !! 2 <> Some ""
         /\ (segments !! 2 = Some PROPERTY_DIR ->
             properties thing !! js_key (segments !! 3) = None)
         /\ (segments !! 2 = Some ACTION_DIR ->
             actions thing !! js_key (segments !! 3) = None)
         /\ (segments !! 2 = Some EVENT_DIR ->
             events thing !! js_key (segments !! 3) = None)
     end.

(** The frames that answer a read, a write and an invocation, as the
    [then] and [catch] callbacks of lines 292-316, 384-397 and 435-464
    build them. *)
Definition read_reply (ref : PropertyRef) (opts : gmap string string)
    (r : Settled JsValue) : Frame :=
  match r with
  | Fulfilled value =>
      match serialize_property ref value with
      | Returns content =>
          reply "2.05" (<["Content-Format" := c_type content]> opts)
            (Some (c_body content))
      | Throws err => reply "5.00" opts (Some err)
      end
  | Rejected err => reply "5.00" opts (Some err)
  end.

Definition write_reply (opts : gmap string string) (r : Settled JsValue) : Frame :=
  match r with
  | Fulfilled _ => reply "2.04" opts (Some "Changed")
  | Rejected err => reply "5.00" opts (Some err)
  end.

Definition invoke_reply (ref : ActionRef) (opts : gmap string string)
    (r : Settled JsValue) : Frame :=
  match r with
  | Fulfilled output_ =>
      if truthy output_ then
        match serialize_output ref output_ with
        | Returns content =>
            reply "2.05" (<["Content-Format" := c_type content]> opts)
              (Some (c_body content))
        | Throws err => reply "5.00" opts (Some err)
        end
      else reply "2.04" opts None
  | Rejected err => reply "5.00" opts (Some err)
  end.

(** The continuations that answer once and for all. *)
Definition one_shot (k : Continuation) : Prop :=
  match k with
  | AfterRead _ | AfterWrite | AfterInvoke _ => True
  | _ => False
  end.

(** The interval was cleared, or never set. *)
Definition idle_timer (x : Exchange) : Prop :=
  forall t, oInterval x = Some t -> running t = false.

(** The frame of one event notification. *)
Definition notifies (f : Frame) (content : Content) : Prop :=
  f_code f = "2.05" /\ f_body f = Some (c_body content)
  /\ f_options f !! "Content-Format" = Some (c_type content)
  /\ f_last f = false.

(** [p'] is [p] with the forms [new] pushed, and so for actions and events. *)
Definition property_extended (p p' : PropertyElement) (new : list Form) : Prop :=
  readOnly p' = readOnly p /\ writeOnly p' = writeOnly p
  /\ observable p' = observable p /\ p_schema p' = p_schema p
  /\ p_forms p' = (p_forms p ++ new)%list.

Definition action_extended (a a' : ActionElement) (new : list Form) : Prop :=
  input a' = input a /\ output a' = output a
  /\ a_forms a' = (a_forms a ++ new)%list.

Definition event_extended (e e' : EventElement) (new : list Form) : Prop :=
  data e' = data e /\ e_forms e' = (e_forms e ++ new)%list.

(** What [expose] has pushed to one thing after [n] rounds of its loops:
    every interaction is still there, with [n] new forms of the fixed
    operations, and there is no new interaction. *)
Definition bound (n : nat) (thing thing' : ExposedThing) : Prop :=
  id thing' = id thing /\ title thing' = title thing
  /\ (forall name,
        match properties thing !! name with
        | Some p => exists p' new,
            properties thing' !! name = Some p' /\ property_extended p p' new
            /\ length new = n /\ Forall (fun f => op f = property_ops p) new
        | None => properties thing' !! name = None
        end)
  /\ (forall name,
        match actions thing !! name with
        | Some a => exists a' new,
            actions thing' !! name = Some a' /\ action_extended a a' new
            /\ length new = n /\ Forall (fun f => op f = ["invokeaction"]) new
        | None => actions thing' !! name = None
        end)
  /\ (forall name,
        match events thing !! name with
        | Some e => exists e' new,
            events thing' !! name = Some e' /\ event_extended e e' new
            /\ length new = n
            /\ Forall (fun f => op f = ["subscribeevent"; "unsubscribeevent"]) new
        | None => events thing' !! name = None
        end).

End FurtherVocabulary.

(** ** A concrete installation

    The collaborators are instantiated by small total functions, and one
    lamp is exposed, so that the model can be evaluated. *)

Module Demo.

Definition render (v : JsValue) : string :=
  match v with
  | JUndefined => ""
  | JNull => "null"
  | JBool true => "true"
  | JBool false => "false"
  | JNum z => pretty z
  | JStr s => s
  | JObj json => json
  end.

Definition parse (body : string) : Try JsValue :=
  if String.eqb body "true" then Returns (JBool true)
  else if String.eqb body "false" then Returns (JBool false)
  else if String.eqb body "null" then Returns JNull
  else if String.eqb body "" then Throws "Unexpected end of JSON input"
  else Returns (JStr body).

(** The codec refuses to serialise [undefined]. *)
Definition codec : ContentSerdes := {|
  DEFAULT := "application/json";
  TD := "application/td+json";
  getSupportedMediaTypes := ["application/json"; "text/plain"];
  getOfferedMediaTypes := ["application/json"];
  getMediaType := fun contentType => contentType;
  valueToContent := fun value _ contentType =>
    match value with
    | JUndefined => Throws "cannot serialize undefined"
    | _ => Returns {| c_type := contentType; c_body := render value |}
    end;
  contentToValue := fun _ body _ => parse (default "" body)
|}.

Definition helpers : Helpers := {|
  getAddresses := ["192.0.2.1"];
  toUriLiteral := fun address => address;
  generateUniqueName := fun name => name ++ "_2";
  slugify := fun title => title;
  encodeURIComponent := fun s => s;
  decodedPathname := fun url => url;
  getPropertyContentType := fun _ _ => Returns "application/json";
  getActionContentType := fun _ _ => Returns "application/json";
  getEventContentType := fun _ _ => Returns "application/json";
  updatePropertyFormWithTemplate := fun form _ _ => form;
  updateActionFormWithTemplate := fun form _ _ => form;
  updateEventFormWithTemplate := fun form _ _ => form;
  stringifyDescription := fun thing => "{title:" ++ title thing ++ "}";
  stringifyList := fun l => "[" ++ String.concat "," l ++ "]"
|}.

End Demo.

Module Lamp.

Definition on : PropertyElement :=
  {| readOnly := false; writeOnly := false; observable := true;
     p_schema := "boolean"; p_forms := [] |}.

Definition serial : PropertyElement :=
  {| readOnly := true; writeOnly := false; observable := false;
     p_schema := "string"; p_forms := [] |}.

Definition toggle : ActionElement :=
  {| input := None; output := None; a_forms := [] |}.

Definition overheated : EventElement :=
  {| data := Some "number"; e_forms := [] |}.

Definition lamp : ExposedThing :=
  {| id := "urn:dev:lamp"; title := "lamp";
     properties := <["on" := on]> (<["serial" := serial]> ∅);
     actions := <["toggle" := toggle]> ∅;
     events := <["overheated" := overheated]> ∅ |}.

Definition server : CoapServer :=
  {| things := <["lamp" := lamp]> ∅; _sock := Some 5683%N |}.

Definition stopped : CoapServer := {| things := ∅; _sock := None |}.

(** Two more lamps of the same title. *)
Definition lamp2 : ExposedThing :=
  {| id := "urn:dev:lamp2"; title := "lamp"; properties := ∅;
     actions := ∅; events := ∅ |}.

Definition lamp3 : ExposedThing :=
  {| id := "urn:dev:lamp3"; title := "lamp"; properties := ∅;
     actions := ∅; events := ∅ |}.

(** [lamp] and [lamp2] are exposed on the running server, which is then
    stopped: the registry stays, the socket is gone. *)
Definition twice : CoapServer :=
  (@expose Demo.codec Demo.helpers
     (@expose Demo.codec Demo.helpers
        {| things := ∅; _sock := Some 5683%N |} lamp None).1.1
     lamp2 None).1.1.

Definition crowded : CoapServer := {| things := things twice; _sock := None |}.

Definition request_packet : Packet :=
  {| p_code := "0.01"; p_payload := ""; p_reset := false; p_ack := false;
     p_token := "tk"; p_confirmable := true; p_messageId := 7 |}.

(** The response as the transport prepares it for [request_packet]. *)
Definition response : Prepared :=
  {| r_code := "2.05"; r_options := ∅;
     r_packet := {| p_code := "2.05"; p_payload := ""; p_reset := false;
                    p_ack := true; p_token := "tk"; p_confirmable := false;
                    p_messageId := 7 |};
     r_request := request_packet |}.

Definition get (path : string) (observe : option N) : IncomingMessage :=
  {| method := "GET"; url := path; Content_Format := None;
     Observe := observe; payload := None |}.

Definition put (path : string) (format : option string) (body : string) : IncomingMessage :=
  {| method := "PUT"; url := path; Content_Format := format;
     Observe := None; payload := Some body |}.

Definition post (path : string) (format : option string) (body : string) : IncomingMessage :=
  {| method := "POST"; url := path; Content_Format := format;
     Observe := None; payload := Some body |}.

Definition handle : CoapServer -> IncomingMessage -> Prepared -> Exchange :=
  @handleRequest Demo.codec Demo.helpers.

Definition go : Exchange -> list Stimulus -> Exchange :=
  @run Demo.codec Demo.helpers.

Definition on_ref : PropertyRef :=
  {| pr_thing := lamp; pr_name := "on"; pr_property := on |}.

Definition overheated_ref : EventRef :=
  {| er_thing := lamp; er_name := "overheated"; er_event := overheated |}.

(** The observation of [on] and the subscription to [overheated]. *)
Definition observing : Exchange :=
  handle server (get "/lamp/properties/on" (Some 0%N)) response.

Definition subscribed : Exchange :=
  handle server (get "/lamp/events/overheated" (Some 0%N)) response.

End Lamp.


(** * CoapClient: one request per operation

    A shallow embedding of [packages/binding-coap/src/coap-client.ts].

    Every operation of the client builds one request from the form of the
    interaction ([generateRequest], [uriToOptions]) and returns a promise
    that the events of the request settle.  The closures passed to
    [req.on] and [res.on] are run by [on_event].

    What lies outside the source is kept to the following.
    - [url.parse], [net.isIPv6] and [parseInt] are signatures.
    - [agent.request] gives a request on which no option is set;
      [setOption] and [setHeader] both replace the option of the name.
    - A promise that was settled stays as it is.
    - A stream is known by what [readStreamFully] makes of it; the request
      of [writeResource] and [invokeResource] is built when the stream was
      read, from the client as it is then.
    - The teardown of the subscription runs on the first [unsubscribe]
      only. *)

(** [getSocket()] (coap-server.ts, lines 86-89) *)
Definition getSocket (srv : CoapServer) : option N := _sock srv.

Module Client.

Record UrlObject := {
  u_hostname : option string;
  u_port : option string;
  u_pathname : option string;
  u_query : option string
}.

Class Platform := {
  url_parse : string -> UrlObject;
  net_isIPv6 : option string -> bool;
  (* [parseInt(s, 10)]; [None] is NaN *)
  parseInt : string -> option Z
}.

(** [form["coap:options"]]: absent, an array of options or one option. *)
Inductive CoapOptions :=
| NoOptions
| OptionArray (l : list (string * string))
| SingleOption (optionCode optionValue : string).

(** [contentType] is present when it is a string and
    [form["coap:methodCode"]] when it is a number. *)
Record CoapForm := {
  href : string;
  contentType : option string;
  coap_methodCode : option Z;
  coap_options : CoapOptions
}.

(** A stream, by what [ProtocolHelpers.readStreamFully] makes of it. *)
Definition Readable := Settled Buffer.

Record Content := {
  type : string;
  body : Readable
}.

(** The options an agent is made from. *)
Record AgentOptions := {
  socket : option N;
  agent_type : option string
}.

Record CoapClient := {
  agent : AgentOptions;
  agentOptions : AgentOptions
}.

Record CoapRequestConfig := {
  c_agent : AgentOptions;
  hostname : option string;
  port : option Z;
  pathname : option string;
  query : option string;
  observe : bool;
  multicast : bool;
  confirmable : bool;
  method : option string
}.

(** The request as the client fills it. *)
Record ClientRequest := {
  config : CoapRequestConfig;
  headers : gmap string string;
  written : list Buffer;
  flushed : bool
}.

(** [req.setOption(k, v)] *)
Definition setOption (k v : string) (req : ClientRequest) : ClientRequest :=
  {| config := config req; headers := <[k := v]> (headers req);
     written := written req; flushed := flushed req |}.

(** [req.setHeader(k, v)] *)
Definition setHeader (k v : string) (req : ClientRequest) : ClientRequest :=
  setOption k v req.

(** [req.write(buffer)] *)
Definition write (buffer : Buffer) (req : ClientRequest) : ClientRequest :=
  {| config := config req; headers := headers req;
     written := (written req ++ [buffer])%list; flushed := flushed req |}.

(** [req.end()] *)
Definition end_ (req : ClientRequest) : ClientRequest :=
  {| config := config req; headers := headers req;
     written := written req; flushed := true |}.

(** The constructor (lines 39-50). *)
Definition new (server : option CoapServer) : CoapClient :=
  {| agent := {| socket := server ≫= getSocket; agent_type := None |};
     agentOptions := {| socket := server ≫= getSocket; agent_type := None |} |}.

Section Requests.
Context {platform : Platform}.

(** *** uriToOptions (lines 185-205) *)

Definition uriToOptions (c : CoapClient) (uri : string) : CoapClient * CoapRequestConfig :=
  let requestUri := url_parse uri in
  let agentOptions :=
    {| socket := socket (agentOptions c);
       agent_type := Some (if net_isIPv6 (u_hostname requestUri)
                           then "udp6" else "udp4") |} in
  ({| agent := agentOptions; agentOptions := agentOptions |},
   {| c_agent := agentOptions;
      hostname := u_hostname requestUri;
      port := match u_port requestUri with
              | Some p => if truthy_str (Some p) then parseInt p else Some 5683%Z
              | None => Some 5683%Z
              end;
      pathname := u_pathname requestUri;
      query := u_query requestUri;
      observe := false;
      multicast := false;
      confirmable := true;
      method := None |}).

(** *** generateRequest (lines 207-245) *)

Definition generateRequest (c : CoapClient) (form : CoapForm) (dflt : string)
    (observable : bool) : CoapClient * ClientRequest :=
  let '(c, options) := uriToOptions c (href form) in
  let method :=
    match coap_methodCode form with
    | Some 1%Z => "GET"
    | Some 2%Z => "POST"
    | Some 3%Z => "PUT"
    | Some 4%Z => "DELETE"
    | _ => dflt
    end in
  let options :=
    {| c_agent := c_agent options; hostname := hostname options;
       port := port options; pathname := pathname options;
       query := query options; observe := observable;
       multicast := multicast options; confirmable := confirmable options;
       method := Some method |} in
  let req := {| config := options; headers := ∅; written := []; flushed := false |} in
  let req :=
    match contentType form with
    | Some contentType => setOption "Accept" contentType req
    | None => req
    end in
  let req :=
    match coap_options form with
    | OptionArray options => foldl (fun req o => setOption o.1 o.2 req) req options
    | SingleOption optionCode optionValue => setHeader optionCode optionValue req
    | NoOptions => req
    end in
  (c, req).

(** *** The operations *)

(** The five operations; [Subscribing] keeps whether the callbacks [error]
    and [complete] were passed. *)
Inductive Operation :=
| Reading
| Writing
| Invoking
| Unlinking
| Subscribing (error complete : bool).

(** What a promise of the client is resolved with. *)
Inductive Result :=
| Payload (contentType : option string) (payload : Buffer)
| Void
| Subscription.

(** One operation and everything its closures hold: the request, the
    promise, the content type each response fixed for its [data]
    listener, and the calls of the callbacks. *)
Record Pending := {
  operation : Operation;
  form : CoapForm;
  request : option ClientRequest;
  promise : option (Settled Result);
  streams : list (option string);
  next : list (option string * Buffer);
  error : list Error;
  closed : bool;                        (* [res.close()] *)
  complete : nat;
  uncaught : list Error
}.

Definition TypeError : Error := "TypeError".

Definition pending (operation : Operation) (form : CoapForm)
    (request : option ClientRequest) (promise : option (Settled Result)) : Pending :=
  {| operation := operation; form := form; request := request;
     promise := promise; streams := []; next := []; error := [];
     closed := false; complete := 0; uncaught := [] |}.

Definition settle (s : Settled Result) (st : Pending) : Pending :=
  {| operation := operation st; form := form st; request := request st;
     promise := match promise st with Some s' => Some s' | None => Some s end;
     streams := streams st; next := next st; error := error st;
     closed := closed st; complete := complete st; uncaught := uncaught st |}.

Definition resolve (v : Result) : Pending -> Pending := settle (Fulfilled v).
Definition reject (err : Error) : Pending -> Pending := settle (Rejected err).

(** Lines 57-77. *)
Definition readResource (c : CoapClient) (form : CoapForm) : CoapClient * Pending :=
  let '(c, req) := generateRequest c form "GET" false in
  (c, pending Reading form (Some (end_ req)) None).

(** Lines 79-99. *)
Definition writeResource (c : CoapClient) (form : CoapForm) (content : Content)
    : CoapClient * Pending :=
  match body content with
  | Fulfilled buffer =>
      let '(c, req) := generateRequest c form "PUT" false in
      let req := setOption "Content-Format" (type content) req in
      let req := write buffer req in
      (c, pending Writing form (Some (end_ req)) None)
  | Rejected err => (c, pending Writing form None (Some (Rejected err)))
  end.

(** The callback of [readStreamFully(...).then] in [invokeResource]
    (lines 104-120), for any [content] of the enclosing call. *)
Definition invoke_read (c : CoapClient) (form : CoapForm) (content : option Content)
    (buffer : Buffer) : CoapClient * Pending :=
  let '(c, req) := generateRequest c form "POST" false in
  let req :=
    match content with
    | Some content => write buffer (setOption "Content-Format" (type content) req)
    | None => req
    end in
  (c, pending Invoking form (Some (end_ req)) None).

(** Lines 101-124; [content.body] is read before [content] is tested. *)
Definition invokeResource (c : CoapClient) (form : CoapForm) (content : option Content)
    : CoapClient * Pending :=
  match content with
  | None => (c, pending Invoking form None (Some (Rejected TypeError)))
  | Some content' =>
      match body content' with
      | Fulfilled buffer => invoke_read c form content buffer
      | Rejected err => (c, pending Invoking form None (Some (Rejected err)))
      end
  end.

(** Lines 126-141. *)
Definition unlinkResource (c : CoapClient) (form : CoapForm) : CoapClient * Pending :=
  let '(c, req) := generateRequest c form "GET" false in
  (c, pending Unlinking form (Some (end_ req)) None).

(** Lines 143-173. *)
Definition subscribeResource (c : CoapClient) (form : CoapForm) (error complete : bool)
    : CoapClient * Pending :=
  let '(c, req) := generateRequest c form "GET" true in
  (c, pending (Subscribing error complete) form (Some (end_ req)) None).

(** *** The closures, run by the events of the request *)

Inductive Event :=
| Response (Content_Format : option string) (payload : Buffer)
| Failed (err : Error)
(* the object of the [k]-th response emits [data], its payload being [payload] *)
| Data (k : nat) (payload : Buffer)
| Unsubscribed.

(** [let contentType = res.headers["Content-Format"];
     if (!contentType) contentType = form.contentType;] *)
Definition received_type (form : CoapForm) (Content_Format : option string) : option string :=
  if truthy_str Content_Format then Content_Format else contentType form.

Definition on_response (Content_Format : option string) (payload : Buffer)
    (st : Pending) : Pending :=
  match operation st with
  | Reading => resolve (Payload (received_type (form st) Content_Format) payload) st
  | Writing => resolve Void st
  | Invoking => resolve (Payload Content_Format payload) st
  | Unlinking => resolve Void st
  | Subscribing _ _ =>
      resolve Subscription
        {| operation := operation st; form := form st; request := request st;
           promise := promise st;
           streams := (streams st ++ [received_type (form st) Content_Format])%list;
           next := next st; error := error st; closed := closed st;
           complete := complete st; uncaught := uncaught st |}
  end.

Definition on_error (err : Error) (st : Pending) : Pending :=
  match operation st with
  | Subscribing has_error _ =>
      {| operation := operation st; form := form st; request := request st;
         promise := promise st; streams := streams st; next := next st;
         error := if has_error then (error st ++ [err])%list else error st;
         closed := closed st; complete := complete st;
         uncaught := if has_error then uncaught st
                     else (uncaught st ++ [TypeError])%list |}
  | _ => reject err st
  end.

Definition on_data (k : nat) (payload : Buffer) (st : Pending) : Pending :=
  match streams st !! k with
  | Some contentType =>
      {| operation := operation st; form := form st; request := request st;
         promise := promise st; streams := streams st;
         next := (next st ++ [(contentType, payload)])%list;
         error := error st; closed := closed st; complete := complete st;
         uncaught := uncaught st |}
  | None => st
  end.

(** The teardown of the subscription the promise was resolved with. *)
Definition on_unsubscribe (st : Pending) : Pending :=
  match operation st, promise st with
  | Subscribing _ has_complete, Some (Fulfilled Subscription) =>
      if closed st then st
      else {| operation := operation st; form := form st; request := request st;
              promise := promise st; streams := streams st; next := next st;
              error := error st; closed := true;
              complete := if has_complete then S (complete st) else complete st;
              uncaught := uncaught st |}
  | _, _ => st
  end.

(** An operation without a request listens to nothing. *)
Definition on_event (st : Pending) (e : Event) : Pending :=
  match request st with
  | None => st
  | Some _ =>
      match e with
      | Response Content_Format payload => on_response Content_Format payload st
      | Failed err => on_error err st
      | Data k payload => on_data k payload st
      | Unsubscribed => on_unsubscribe st
      end
  end.

Definition events (st : Pending) (es : list Event) : Pending := foldl on_event st es.

End Requests.

(** *** Vocabulary of the properties of the client *)

Definition is_response (e : Event) : bool :=
  match e with Response _ _ => true | _ => false end.

Definition failure (e : Event) : option Error :=
  match e with Failed err => Some err | _ => None end.

(** A call of one of the five operations, and a client performing it. *)
Inductive Invocation :=
| ReadOf (form : CoapForm)
| WriteOf (form : CoapForm) (content : Content)
| InvokeOf (form : CoapForm) (content : option Content)
| UnlinkOf (form : CoapForm)
| SubscribeOf (form : CoapForm) (error complete : bool).

Definition perform {platform : Platform} (c : CoapClient) (i : Invocation)
    : CoapClient * Pending :=
  match i with
  | ReadOf form => readResource c form
  | WriteOf form content => writeResource c form content
  | InvokeOf form content => invokeResource c form content
  | UnlinkOf form => unlinkResource c form
  | SubscribeOf form error complete => subscribeResource c form error complete
  end.

(** The method of an operation whose form names none. *)
Definition default_method (o : Operation) : string :=
  match o with
  | Writing => "PUT"
  | Invoking => "POST"
  | _ => "GET"
  end.

Definition subscribing (o : Operation) : bool :=
  match o with Subscribing _ _ => true | _ => false end.

(** Neither a response nor a failure. *)
Definition quiet (e : Event) : bool :=
  match e with Response _ _ | Failed _ => false | _ => true end.

(** The options a form puts on a request: [Accept] from its content
    type, and its own. *)
Definition from_form (form : CoapForm) (k v : string) : Prop :=
  (k = "Accept" /\ contentType form = Some v)
  \/ match coap_options form with
     | OptionArray l => (k, v) ∈ l
     | SingleOption k' v' => k = k' /\ v = v'
     | NoOptions => False
     end.

(** What holds of a subscription after the events [es]. *)
Definition subscribed_after (f : CoapForm) (has_error has_complete : bool)
    (es : list Event) (st : Pending) : Prop :=
  operation st = Subscribing has_error has_complete
  /\ form st = f
  /\ is_Some (request st)
  /\ promise st = (if existsb is_response es then Some (Fulfilled Subscription) else None)
  /\ error st = (if has_error then omap failure es else [])
  /\ length (uncaught st) = (if has_error then 0 else length (omap failure es))
  /\ Forall (fun t => t = contentType f
                      \/ (truthy_str t = true /\ exists p, Response t p ∈ es))
       (streams st)
  /\ Forall (fun n => n.1 ∈ streams st) (next st)
  /\ complete st = (if closed st && has_complete then 1 else 0)
  /\ (closed st = true -> existsb is_response es = true).

(** A platform to evaluate the client on: URLs of the form
    [coap://[::1]:5684/...] have an IPv6 host and a port, every other URL
    has the host [localhost] and no port. *)
Definition desk : Platform :=
  {| url_parse := fun uri =>
       if String.prefix "coap://[::1]:5684" uri
       then {| u_hostname := Some "::1"; u_port := Some "5684";
               u_pathname := Some (String.substring 17 (String.length uri) uri);
               u_query := None |}
       else {| u_hostname := Some "localhost"; u_port := None;
               u_pathname := Some uri; u_query := None |};
     net_isIPv6 := fun host => bool_decide (host = Some "::1");
     parseInt := fun s => if String.eqb s "5684" then Some 5684%Z else None |}.

Definition toggle_form : CoapForm :=
  {| href := "coap://[::1]:5684/lamp/actions/toggle";
     contentType := Some "application/json";
     coap_methodCode := None;
     coap_options := OptionArray [("Content-Format", "text/plain"); ("Uri-Host", "lamp")] |}.

Definition on_form : CoapForm :=
  {| href := "/lamp/properties/on";
     contentType := Some "application/json";
     coap_methodCode := Some 7%Z;
     coap_options := SingleOption "Accept" "text/plain" |}.

Definition json (s : string) : Content :=
  {| type := "application/json"; body := Fulfilled s |}.

End Client.

(** * Properties *)

(** Symbolic execution: the exchange is split into its fields first, so
    that every primitive reduces on a record. *)
Ltac open x := destruct x as [[? ? ? ? ? ? ?] ? ? ? ? ? ?].

Ltac exec :=
  lazy [respond internal_error not_found method_not_allowed res_end
        res_write on_finish set_code set_option send_acknowledgement
        set_packet set_listener set_interval clear_interval await forget
        throw call with_res then_ accept close begin entered looked_up
        acknowledgement restore
        res oInterval promises fresh listener calls thrown
        code options _packet _request ended sent finishListeners] in *.

Ltac compute_goal := vm_compute; repeat split; try reflexivity; try discriminate.

Section Properties.
Context {serdes : ContentSerdes} {helpers : Helpers}.
Open Scope list_scope.

(** ** The sink and the primitives *)

Lemma indexOf_from_range l x i :
  (0 <= i)%Z -> (indexOf_from i l x = -1 \/ i <= indexOf_from i l x)%Z.
Proof.
  revert i. induction l as [|y l IH]; intros i Hi; cbn; [by left|].
  destruct (String.eqb y x); [right; lia|].
  destruct (IH (i + 1)%Z) as [->|?]; [lia|by left|right; lia].
Qed.

Lemma indexOf_from_absent l x i :
  (0 <= i)%Z -> (indexOf_from i l x <? 0)%Z = true <-> x ∉ l.
Proof.
  revert i. induction l as [|y l IH]; intros i Hi; cbn.
  - split; [intros _; apply not_elem_of_nil|done].
  - rewrite not_elem_of_cons. destruct (String.eqb y x) eqn:E.
    + apply String.eqb_eq in E. split; [lia|]. by intros [? _].
    + apply String.eqb_neq in E. rewrite IH by lia. split; [|by intros [_ ?]].
      intros ?. split; [congruence|done].
Qed.

(** [l.indexOf(x) < 0] *)
Lemma indexOf_absent l x : (indexOf l x <? 0)%Z = true <-> x ∉ l.
Proof. by apply indexOf_from_absent. Qed.

(** What [res.code = c; res.end(body)] does to an open sink. *)
Lemma respond_open c body x :
  ended (res x) = false ->
  calls (respond c body x) = calls x ++ [ResEnd body]
  /\ sent (res (respond c body x))
     = sent (res x) ++ [{| f_code := c; f_options := options (res x);
                           f_body := body; f_last := true |}]
  /\ ended (res (respond c body x)) = true
  /\ code (res (respond c body x)) = c.
Proof. open x. exec. by intros ->. Qed.

Lemma sealed_then f g : sealed f -> sealed g -> sealed (f >>> g).
Proof.
  intros Hf Hg x Hx. unfold then_.
  destruct (Hf x Hx) as [H1 H2]. destruct (Hg (f x) H1) as [H3 H4].
  split; [done|congruence].
Qed.

Lemma sealed_id : sealed (fun x => x).
Proof. by intros x Hx. Qed.

Lemma sealed_respond c body : sealed (respond c body).
Proof. intros x Hx. open x. exec. by subst. Qed.

Lemma sealed_res_end body : sealed (res_end body).
Proof. intros x Hx. open x. exec. by subst. Qed.

Lemma sealed_res_write body : sealed (res_write body).
Proof. intros x Hx. open x. exec. by subst. Qed.

Lemma sealed_set_code c : sealed (set_code c).
Proof. by intros x Hx. Qed.

Lemma sealed_set_option k v : sealed (set_option k v).
Proof. by intros x Hx. Qed.

Lemma sealed_on_finish l : sealed (on_finish l).
Proof. by intros x Hx. Qed.

Lemma sealed_call c : sealed (call c).
Proof. by intros x Hx. Qed.

Lemma sealed_await c k : sealed (await c k).
Proof. by intros x Hx. Qed.

Lemma sealed_clear_interval : sealed clear_interval.
Proof. by intros x Hx. Qed.

Lemma sealed_set_listener l : sealed (set_listener l).
Proof. by intros x Hx. Qed.

Create HintDb sealed.
#[local] Hint Resolve sealed_then sealed_id sealed_respond sealed_res_end
  sealed_res_write sealed_set_code sealed_set_option sealed_on_finish
  sealed_call sealed_await sealed_clear_interval sealed_set_listener : sealed.

Lemma sealed_resume k r : sealed (resume k r).
Proof.
  destruct k, r; cbn [resume]; unfold internal_error;
    repeat match goal with
           | |- sealed (match ?t with _ => _ end) => destruct t
           | |- sealed (if ?b then _ else _) => destruct b
           end; auto 10 with sealed.
Qed.

Lemma sealed_on_data ref d : sealed (on_data ref d).
Proof. unfold on_data. destruct (serialize_event ref d); auto 10 with sealed. Qed.

Lemma sealed_run_listener l : sealed (fun x => run_listener x l).
Proof. destruct l; cbn [run_listener]; auto 10 with sealed. Qed.

Lemma sealed_listeners ls : sealed (fun x => foldl run_listener x ls).
Proof.
  induction ls as [|l ls IH]; cbn [foldl]; [apply sealed_id|].
  intros x Hx. destruct (sealed_run_listener l x Hx) as [H1 H2].
  destruct (IH _ H1) as [H3 H4]. split; [done|congruence].
Qed.

Lemma sealed_step s : sealed (fun x => step x s).
Proof.
  intros x Hx. destruct s; cbn [step].
  - unfold on_tick. destruct (oInterval x) as [t|]; [|done].
    destruct (running t); [|done]. by apply sealed_await.
  - unfold on_settle. destruct (promises x !! p) as [k|]; [|done].
    by apply (sealed_resume k r (forget p x)).
  - unfold on_emit. destruct (listener x) as [ref|]; [|done].
    by apply sealed_on_data.
  - unfold on_finished. by apply (sealed_listeners _ (with_res close x)).
Qed.

Lemma sealed_run ss : sealed (fun x => run x ss).
Proof.
  induction ss as [|s ss IH]; [apply sealed_id|].
  intros x Hx. unfold run in *. cbn [foldl].
  destruct (sealed_step s x Hx) as [H1 H2].
  destruct (IH _ H1) as [H3 H4]. split; [done|congruence].
Qed.

Lemma answered_step x s :
  answered x -> answered (step x s) /\ calls (step x s) = calls x.
Proof.
  intros (Hp & Ht & Hl & Hf). destruct s; cbn [step].
  - unfold on_tick. by rewrite Ht.
  - unfold on_settle. by rewrite Hp, lookup_empty.
  - unfold on_emit. by rewrite Hl.
  - unfold on_finished. rewrite Hf. cbn. by unfold answered.
Qed.

Lemma answered_run x ss : answered x -> calls (run x ss) = calls x.
Proof.
  revert x. induction ss as [|s ss IH]; intros x Hx; [done|].
  unfold run in *. cbn [foldl].
  destruct (answered_step x s Hx) as [H1 H2]. by rewrite IH.
Qed.

Lemma answered_respond c body x : answered x -> answered (respond c body x).
Proof. unfold answered. open x. by exec. Qed.

Lemma answered_entered res0 : answered (entered res0).
Proof. by unfold answered, entered. Qed.

(** ** Admission and routing *)

Lemma handle_admitted srv req res0 contentType :
  admission req = Admit contentType ->
  handleRequest srv req res0 = route srv req contentType (entered res0).
Proof. intros H. unfold handleRequest, then_ at 1. by rewrite H. Qed.

Lemma handle_unsupported srv req res0 :
  admission req = Unsupported ->
  handleRequest srv req res0
  = respond "4.15" (Some "Unsupported Media Type") (entered res0).
Proof. intros H. unfold handleRequest, then_ at 1. by rewrite H. Qed.

Lemma handle_raise srv req res0 err :
  admission req = Raise err ->
  handleRequest srv req res0 = throw err (entered res0).
Proof. intros H. unfold handleRequest, then_ at 1. by rewrite H. Qed.

(** Only PUT and POST are checked. *)
Lemma admission_other req :
  method req <> "PUT" -> method req <> "POST" ->
  admission req = Admit (Content_Format req).
Proof.
  intros H1 H2. unfold admission.
  apply String.eqb_neq in H1, H2. by rewrite H1, H2.
Qed.

Lemma route_to_thing srv req contentType slug dir thing x :
  let segments := split_slash (decodedPathname (url req)) in
  segments !! 1 = Some slug -> slug <> "" ->
  segments !! 2 = Some dir -> dir <> "" ->
  things srv !! slug = Some thing ->
  route srv req contentType x
  = (let name := js_key (segments !! 3) in
     if bool_decide (Some dir = Some PROPERTY_DIR) then
       match properties thing !! name with
       | Some property =>
           on_property contentType req
             {| pr_thing := thing; pr_name := name; pr_property := property |}
       | None => not_found
       end
     else if bool_decide (Some dir = Some ACTION_DIR) then
       match actions thing !! name with
       | Some action =>
           on_action contentType req
             {| ar_thing := thing; ar_name := name; ar_action := action |}
       | None => not_found
       end
     else if bool_decide (Some dir = Some EVENT_DIR) then
       match events thing !! name with
       | Some event =>
           on_event req {| er_thing := thing; er_name := name; er_event := event |}
       | None => not_found
       end
     else not_found) (call (RegistryGet (Some slug)) x).
Proof.
  intros segments H1 Hs H2 Hd Ht. unfold route. fold segments.
  assert (length segments <> 2) as Hlen.
  { apply lookup_lt_Some in H2. lia. }
  apply Nat.eqb_neq in Hlen.
  rewrite H1, H2, Hlen. cbn [mbind option_bind orb].
  rewrite !bool_decide_eq_false_2 by congruence.
  unfold then_ at 1. by rewrite Ht.
Qed.

Lemma route_property srv req contentType slug name thing property x :
  addresses req slug PROPERTY_DIR name -> slug <> "" ->
  things srv !! slug = Some thing ->
  properties thing !! name = Some property ->
  route srv req contentType x
  = on_property contentType req
      {| pr_thing := thing; pr_name := name; pr_property := property |}
      (call (RegistryGet (Some slug)) x).
Proof.
  intros (H1 & H2 & H3) Hs Ht Hp.
  rewrite (route_to_thing srv req contentType slug PROPERTY_DIR thing) by done.
  cbv zeta. rewrite H3. cbn [js_key].
  rewrite bool_decide_eq_true_2 by done. by rewrite Hp.
Qed.

Lemma route_event srv req contentType slug name thing event x :
  addresses req slug EVENT_DIR name -> slug <> "" ->
  things srv !! slug = Some thing ->
  events thing !! name = Some event ->
  route srv req contentType x
  = on_event req {| er_thing := thing; er_name := name; er_event := event |}
      (call (RegistryGet (Some slug)) x).
Proof.
  intros (H1 & H2 & H3) Hs Ht He.
  rewrite (route_to_thing srv req contentType slug EVENT_DIR thing) by done.
  cbv zeta. rewrite H3. cbn [js_key].
  rewrite !bool_decide_eq_false_2 by done.
  rewrite bool_decide_eq_true_2 by done. by rewrite He.
Qed.

(** A slug that is not registered is answered 4.04. *)
Lemma route_unknown srv req contentType slug x :
  split_slash (decodedPathname (url req)) !! 1 = Some slug -> slug <> "" ->
  things srv !! slug = None ->
  route srv req contentType x
  = not_found (call (RegistryGet (Some slug)) x).
Proof.
  intros H1 Hs Ht. unfold route. cbv zeta. rewrite H1.
  rewrite bool_decide_eq_false_2 by congruence.
  cbn [mbind option_bind]. unfold then_ at 1. by rewrite Ht.
Qed.

Lemma admission_checked req :
  method req = "PUT" \/ method req = "POST" ->
  admission req =
    if negb (truthy_str (Content_Format req)) && bool_decide (is_Some (payload req))
    then Admit (Some DEFAULT)
    else match getMediaType (Content_Format req) with
         | Some mediaType =>
             if (indexOf getSupportedMediaTypes mediaType <? 0)%Z
             then Unsupported
             else Admit (Content_Format req)
         | None => Raise "TypeError"
         end.
Proof.
  intros Hm. unfold admission.
  destruct Hm as [-> | ->]; cbn [String.eqb Ascii.eqb Bool.eqb orb]; reflexivity.
Qed.


Lemma answered_looked_up slug res0 : answered (looked_up slug res0).
Proof. by unfold answered, looked_up, entered. Qed.

Lemma answered_throw err x : answered x -> answered (throw err x).
Proof. by unfold answered. Qed.

(** ** Properties: writes *)


(** ** Events: dispatch and subscription *)



(** ** Observation: invariants *)

Lemma observe_starts srv req res0 slug name thing property n
    (Hmethod : method req = "GET") (Hobs : Observe req = Some n)
    (Haddr : addresses req slug PROPERTY_DIR name) (Hslug : slug <> "")
    (Hthing : things srv !! slug = Some thing)
    (Hprop : properties thing !! name = Some property) :
  handleRequest srv req res0
  = set_interval {| pr_thing := thing; pr_name := name; pr_property := property |}
      (looked_up slug res0).
Proof.
  assert (admission req = Admit (Content_Format req)) as Hadm.
  { apply admission_other; rewrite Hmethod; discriminate. }
  rewrite (handle_admitted _ _ _ _ Hadm).
  rewrite (route_property srv req _ slug name thing property) by done.
  unfold on_property. by rewrite Hmethod, Hobs.
Qed.

Lemma polling_start ref slug res0 :
  polling ref (set_interval ref (looked_up slug res0)).
Proof.
  unfold polling. exec. split; [by eexists|]. split; [|split; [done|]].
  - intros p k Hp. by rewrite lookup_empty in Hp.
  - intros l Hl. left. by apply list_elem_of_singleton in Hl.
Qed.

Lemma polling_listeners ref ls x :
  (forall l, l ∈ ls -> l = LogReply \/ l = StopObserving) ->
  polling ref x -> polling ref (foldl run_listener x ls).
Proof.
  revert x. induction ls as [|l ls IH]; intros x Hls Hx; [done|].
  cbn [foldl]. apply IH; [intros l' Hl'; apply Hls; by right|].
  destruct (Hls l) as [-> | ->]; [by left|done|]. cbn [run_listener].
  revert Hx. unfold polling. open x. exec.
  intros ((t & -> & Ht) & Hp & Hl & Hf). split; [|done].
  eexists. split; [done|]. done.
Qed.

Lemma polling_forget ref p x : polling ref x -> polling ref (forget p x).
Proof.
  unfold polling. open x. exec. intros (Ht & Hp & Hl & Hf).
  split; [done|]. split; [|done].
  intros q k. rewrite lookup_delete_Some. intros [_ ?]. by eapply Hp.
Qed.

Lemma polling_internal_error ref err x :
  polling ref x -> polling ref (internal_error err x).
Proof. unfold polling. open x. by exec. Qed.

Lemma polling_notify ref content x :
  polling ref x ->
  polling ref ((set_option "Content-Format" (c_type content) >>> set_code "2.05" >>>
                res_write (c_body content) >>> on_finish StopObserving) x).
Proof.
  unfold polling. open x. exec. intros (Ht & Hp & Hl & Hf).
  split; [done|]. split; [done|]. split; [done|].
  intros l. rewrite elem_of_app, list_elem_of_singleton.
  intros [?| ->]; [by apply Hf|by right].
Qed.

Lemma polling_step ref x s : polling ref x -> polling ref (step x s).
Proof.
  intros Hx. destruct s; cbn [step].
  - unfold on_tick. destruct (oInterval x) as [t|] eqn:Ht; [|done].
    destruct (running t); [|done].
    revert Hx Ht. unfold polling. open x. exec.
    intros ((t' & Ht' & Href) & Hp & Hl & Hf) Ht.
    split; [by exists t'|]. split; [|done].
    intros q k. rewrite lookup_insert. case_decide; [|apply Hp].
    intros [= <-]. congruence.
  - unfold on_settle. destruct (promises x !! p) as [k|] eqn:Hk; [|done].
    assert (k = AfterObservedRead ref) as -> by (by eapply Hx).
    apply (polling_forget ref p) in Hx.
    destruct r as [value|err]; cbn [resume]; [|by apply polling_internal_error].
    destruct (serialize_property ref value);
      [by apply polling_notify|by apply polling_internal_error].
  - unfold on_emit. pose proof Hx as (_ & _ & Hl & _). by rewrite Hl.
  - unfold on_finished. apply polling_listeners; [by apply Hx|].
    revert Hx. unfold polling. open x. by exec.
Qed.

Lemma polling_reachable ref x0 x :
  polling ref x0 -> reachable x0 x -> polling ref x.
Proof. intros H0 Hr. induction Hr; [done|by apply polling_step]. Qed.

Lemma pushing_start ref slug res0 :
  pushing ref ((send_acknowledgement >>> set_listener (Some ref) >>>
                await (SubscribeEvent (id (er_thing ref)) (er_name ref)) AfterSubscribe >>>
                on_finish (Unsubscribe (er_thing ref) (er_name ref)))
               (looked_up slug res0)).
Proof.
  unfold pushing. exec. split; [done|]. split; [done|]. split; [|by left].
  intros p k. rewrite lookup_insert. case_decide; [by intros [= <-]|].
  by rewrite lookup_empty.
Qed.

Lemma pushing_step ref x s : pushing ref x -> pushing ref (step x s).
Proof.
  intros Hx. destruct s; cbn [step].
  - unfold on_tick. pose proof Hx as (_ & Ht & _). by rewrite Ht.
  - unfold on_settle. destruct (promises x !! p) as [k|] eqn:Hk; [|done].
    assert (k = AfterSubscribe) as -> by (by eapply Hx).
    assert (pushing ref (forget p x)) as Hx'.
    { revert Hx. unfold pushing. open x. exec. intros (Hf & Ht & Hp & Hl).
      split; [done|]. split; [done|]. split; [|done].
      intros q k. rewrite lookup_delete_Some. intros [_ ?]. by eapply Hp. }
    revert Hx'. generalize (forget p x). clear. intros x.
    unfold pushing. open x. by destruct r; cbn [resume]; exec.
  - unfold on_emit. destruct (listener x) as [ref'|] eqn:Hl; [|done].
    unfold on_data. revert Hx. unfold pushing. open x.
    by destruct (serialize_event ref' d); exec.
  - unfold on_finished. revert Hx. unfold pushing. open x. exec.
    intros (-> & Ht & Hp & Hl). cbn [foldl run_listener]. exec.
    split; [done|]. split; [done|]. split; [done|]. by right.
Qed.

Lemma pushing_reachable ref x0 x :
  pushing ref x0 -> reachable x0 x -> pushing ref x.
Proof. intros H0 Hr. induction Hr; [done|by apply pushing_step]. Qed.

(** The callback never comes back by itself. *)
Lemma muted_then f g : muted f -> muted g -> muted (f >>> g).
Proof. intros Hf Hg x Hx. unfold then_. by apply Hg, Hf. Qed.

Lemma muted_respond c body : muted (respond c body).
Proof. intros x. open x. by exec. Qed.

Lemma muted_res_end body : muted (res_end body).
Proof. intros x. open x. by exec. Qed.

Lemma muted_res_write body : muted (res_write body).
Proof. intros x. open x. by exec. Qed.

Lemma muted_set_code c : muted (set_code c).
Proof. intros x. open x. by exec. Qed.

Lemma muted_set_option k v : muted (set_option k v).
Proof. intros x. open x. by exec. Qed.

Lemma muted_on_finish l : muted (on_finish l).
Proof. intros x. open x. by exec. Qed.

Lemma muted_call c : muted (call c).
Proof. intros x. open x. by exec. Qed.

Lemma muted_await c k : muted (await c k).
Proof. intros x. open x. by exec. Qed.

Lemma muted_forget p : muted (forget p).
Proof. intros x. open x. by exec. Qed.

Lemma muted_clear_interval : muted clear_interval.
Proof. intros x. open x. by exec. Qed.

Lemma muted_unset : muted (set_listener None).
Proof. intros x. open x. by exec. Qed.

Create HintDb muted.
#[local] Hint Resolve muted_then muted_respond muted_res_end muted_res_write
  muted_set_code muted_set_option muted_on_finish muted_call muted_await
  muted_forget muted_clear_interval muted_unset : muted.

Lemma muted_resume k r : muted (resume k r).
Proof.
  destruct k, r; cbn [resume]; unfold internal_error;
    repeat match goal with
           | |- muted (match ?t with _ => _ end) => destruct t
           | |- muted (if ?b then _ else _) => destruct b
           end; auto 10 with muted.
Qed.

Lemma muted_listeners ls : muted (fun x => foldl run_listener x ls).
Proof.
  induction ls as [|l ls IH]; intros x Hx; [done|]. cbn [foldl]. apply IH.
  destruct l; cbn [run_listener]; [done| |]; revert Hx;
    [apply (muted_then clear_interval (res_end None))
    |apply (muted_then (call _) (set_listener None))]; auto with muted.
Qed.

Lemma muted_step s : muted (fun x => step x s).
Proof.
  intros x Hx. destruct s; cbn [step].
  - unfold on_tick. destruct (oInterval x) as [t|]; [|done].
    destruct (running t); [|done]. by apply muted_await.
  - unfold on_settle. destruct (promises x !! p) as [k|]; [|done].
    by apply muted_resume, muted_forget.
  - unfold on_emit. by rewrite Hx.
  - unfold on_finished. apply muted_listeners. open x. by exec.
Qed.

Lemma muted_run ss : muted (fun x => run x ss).
Proof.
  induction ss as [|s ss IH]; intros x Hx; [done|].
  unfold run in *. cbn [foldl]. by apply IH, muted_step.
Qed.

(** A promise that is chained is a new one. *)
Lemma numbered_await c k x : numbered x -> numbered (await c k x).
Proof.
  unfold numbered. open x. exec. intros Hx p Hp.
  rewrite lookup_insert_ne by lia. apply Hx. lia.
Qed.

Lemma numbered_forget p x : numbered x -> numbered (forget p x).
Proof.
  unfold numbered. open x. exec. intros Hx q Hq.
  rewrite lookup_delete. case_decide; [done|by apply Hx].
Qed.

Lemma numbered_resume k r x : numbered x -> numbered (resume k r x).
Proof.
  unfold numbered. open x.
  destruct k, r; cbn [resume]; unfold internal_error;
    repeat match goal with
           | |- context [match ?t with Returns _ => _ | Throws _ => _ end] =>
               destruct t
           | |- context [if truthy ?v then _ else _] => destruct (truthy v)
           end; by exec.
Qed.

Lemma numbered_listeners ls : forall x,
  numbered x -> numbered (foldl run_listener x ls).
Proof.
  induction ls as [|l ls IH]; intros x Hx; [done|]. cbn [foldl]. apply IH.
  revert Hx. unfold numbered. open x.
  by destruct l; cbn [run_listener]; exec.
Qed.

Lemma numbered_step x s : numbered x -> numbered (step x s).
Proof.
  intros Hx. destruct s; cbn [step].
  - unfold on_tick. destruct (oInterval x) as [t|]; [|done].
    destruct (running t); [|done]. by apply numbered_await.
  - unfold on_settle. destruct (promises x !! p); [|done].
    by apply numbered_resume, numbered_forget.
  - unfold on_emit. destruct (listener x) as [ref|]; [|done].
    unfold on_data. revert Hx. unfold numbered. open x.
    by destruct (serialize_event ref d); exec.
  - unfold on_finished. apply numbered_listeners.
    revert Hx. unfold numbered. open x. by exec.
Qed.

Lemma numbered_reachable x0 x : numbered x0 -> reachable x0 x -> numbered x.
Proof. intros H0 Hr. induction Hr; [done|by apply numbered_step]. Qed.

(** ** Observation of a property *)

Lemma tick_reads x t :
  oInterval x = Some t -> running t = true ->
  step x Tick
  = await (ReadProperty (id (pr_thing (t_ref t))) (pr_name (t_ref t)))
      (AfterObservedRead (t_ref t)) x.
Proof. intros Ht Hr. cbn [step]. unfold on_tick. by rewrite Ht, Hr. Qed.

Lemma settle_serialized ref x p value content :
  promises x !! p = Some (AfterObservedRead ref) ->
  serialize_property ref value = Returns content ->
  step x (Settle p (Fulfilled value))
  = (set_option "Content-Format" (c_type content) >>> set_code "2.05" >>>
     res_write (c_body content) >>> on_finish StopObserving) (forget p x).
Proof.
  intros Hp Hs. cbn [step]. unfold on_settle. rewrite Hp. cbn [resume].
  by rewrite Hs.
Qed.

Lemma settle_failed ref x p r err :
  promises x !! p = Some (AfterObservedRead ref) ->
  failed_read ref r err ->
  step x (Settle p r) = internal_error err (forget p x).
Proof.
  intros Hp Hf. cbn [step]. unfold on_settle. rewrite Hp.
  destruct Hf as [-> | (value & -> & Hs)]; cbn [resume]; [done|].
  by rewrite Hs.
Qed.

(** Once a notification went out, [finish] stops the timer. *)
Lemma listeners_stop ls :
  forall x t,
  oInterval x = Some t ->
  (forall l, l ∈ ls -> l = LogReply \/ l = StopObserving) ->
  running t = false \/ StopObserving ∈ ls ->
  exists t', oInterval (foldl run_listener x ls) = Some t' /\ running t' = false.
Proof.
  induction ls as [|l ls IH]; intros x t Ht Hls Hstop.
  - destruct Hstop as [?|Hin]; [by exists t|]. by apply elem_of_nil in Hin.
  - cbn [foldl]. destruct (Hls l) as [-> | ->]; [by left| |].
    + cbn [run_listener]. apply (IH x t); [done| |].
      * intros l Hl. apply Hls. by right.
      * destruct Hstop as [?|Hin]; [by left|].
        apply elem_of_cons in Hin as [?|?]; [done|by right].
    + cbn [run_listener].
      apply (IH _ {| running := false; t_ref := t_ref t |}); [| |by left].
      * open x. exec. by rewrite Ht.
      * intros l Hl. apply Hls. by right.
Qed.

Lemma finish_after_notification ref x :
  polling ref x -> StopObserving ∈ finishListeners (res x) ->
  exists t, oInterval (step x Finish) = Some t /\ running t = false.
Proof.
  intros ((t & Ht & _) & _ & _ & Hf) Hin. cbn [step]. unfold on_finished.
  apply (listeners_stop _ _ t); [by open x; exec|done|by right].
Qed.

(** Before that, no listener stops the timer: [finish] changes nothing
    but the sink. *)
Lemma finish_without_listener x :
  (forall l, l ∈ finishListeners (res x) -> l = LogReply) ->
  oInterval (step x Finish) = oInterval x
  /\ calls (step x Finish) = calls x
  /\ promises (step x Finish) = promises x.
Proof.
  intros Hl. cbn [step]. unfold on_finished.
  assert (forall ls y, (forall l, l ∈ ls -> l = LogReply) ->
            foldl run_listener y ls = y) as Hfold.
  { induction ls as [|l ls IH]; intros y Hls; [done|]. cbn [foldl].
    rewrite (Hls l) by (by left). cbn [run_listener]. apply IH.
    intros l' Hl'. apply Hls. by right. }
  rewrite Hfold by done. by open x; exec.
Qed.



(** ** Subscription to an event *)

(** Once the runtime dropped the callback, the handler writes no more. *)
Lemma unsubscribed_step ref x s body :
  pushing ref x -> listener x = None ->
  ResWrite body ∈ calls (step x s) -> ResWrite body ∈ calls x.
Proof.
  intros (Hf & Ht & Hp & _) Hl. destruct s; cbn [step].
  - unfold on_tick. by rewrite Ht.
  - unfold on_settle. destruct (promises x !! p) as [k|] eqn:Hk; [|done].
    assert (k = AfterSubscribe) as -> by (by eapply Hp).
    open x. destruct r; cbn [resume]; exec;
      rewrite elem_of_app, list_elem_of_singleton; by intros [?|?].
  - unfold on_emit. by rewrite Hl.
  - unfold on_finished. rewrite Hf. cbn [foldl run_listener].
    open x. exec. rewrite elem_of_app, list_elem_of_singleton. by intros [?|?].
Qed.

Lemma unsubscribed_run ref ss : forall x body,
  pushing ref x -> listener x = None ->
  ResWrite body ∈ calls (run x ss) -> ResWrite body ∈ calls x.
Proof.
  induction ss as [|s ss IH]; intros x body Hx Hl; [done|].
  unfold run in *. cbn [foldl]. intros Hin.
  apply (unsubscribed_step ref x s); [done..|].
  apply IH; [by apply pushing_step|by apply muted_step|done].
Qed.


(** ** The registry: expose *)


(** ** The registry: destroy *)

(** The loop of [destroy] over any list of names: it deletes the entries
    that are named in the list and carry the id, and [removedThing] is set
    exactly when there is such an entry. *)
Lemma destroy_loop thingId (l : list string) :
  forall (m : gmap string ExposedThing) (r : option ExposedThing),
  (foldl (destroy_visit thingId) (m, r) l).1
    = filter (fun kv => ~ (kv.1 ∈ l /\ id kv.2 = thingId)) m
  /\ (is_Some (foldl (destroy_visit thingId) (m, r) l).2 <->
      is_Some r \/ exists name t, name ∈ l /\ m !! name = Some t /\ id t = thingId).
Proof.
  induction l as [|a l IH]; intros m r; cbn [foldl].
  - cbn. split.
    + symmetry. apply map_filter_id. intros k t _ [Hin _]. by apply not_elem_of_nil in Hin.
    + split; [by left|]. intros [?|(name & t & Hin & _)]; [done|].
      by apply not_elem_of_nil in Hin.
  - assert (E : destroy_visit thingId (m, r) a =
              match m !! a with
              | Some t => if String.eqb (id t) thingId
                          then (delete a m, Some t) else (m, r)
              | None => (m, r)
              end) by reflexivity.
    rewrite E; clear E.
    destruct (m !! a) as [t|] eqn:Ha;
      [destruct (String.eqb (id t) thingId) eqn:Hid|].
    + apply String.eqb_eq in Hid.
      destruct (IH (delete a m) (Some t)) as [IH1 IH2]. split.
      * rewrite IH1. apply map_eq. intros k. apply option_eq. intros v.
        rewrite !map_lookup_filter_Some, lookup_delete_Some. cbn.
        rewrite elem_of_cons. split.
        -- intros [[Hne Hk] Hn]. split; [done|].
           intros [[->|Hin] Hv]; [done|]. by apply Hn.
        -- intros [Hk Hn]. split; [split|]; [|done|].
           ++ intros <-. apply Hn. split; [by left|]. congruence.
           ++ intros [Hin Hv]. apply Hn. split; [by right|done].
      * rewrite IH2. split; [|by intros _; left].
        intros _. right. exists a, t. rewrite elem_of_cons. by intuition.
    + apply String.eqb_neq in Hid.
      destruct (IH m r) as [IH1 IH2]. split.
      * rewrite IH1. apply map_filter_ext. intros k v Hk. cbn.
        rewrite elem_of_cons. split.
        -- intros Hn [[->|Hin] Hv]; [congruence|]. by apply Hn.
        -- intros Hn [Hin Hv]. apply Hn. by intuition.
      * rewrite IH2. apply or_iff_compat_l. split.
        -- intros (name & u & Hin & Hu & Hv). exists name, u.
           rewrite elem_of_cons. by intuition.
        -- intros (name & u & Hin & Hu & Hv). exists name, u.
           apply elem_of_cons in Hin as [->|Hin]; [congruence|done].
    + destruct (IH m r) as [IH1 IH2]. split.
      * rewrite IH1. apply map_filter_ext. intros k v Hk. cbn.
        rewrite elem_of_cons. split.
        -- intros Hn [[->|Hin] Hv]; [congruence|]. by apply Hn.
        -- intros Hn [Hin Hv]. apply Hn. by intuition.
      * rewrite IH2. apply or_iff_compat_l. split.
        -- intros (name & u & Hin & Hu & Hv). exists name, u.
           rewrite elem_of_cons. by intuition.
        -- intros (name & u & Hin & Hu & Hv). exists name, u.
           apply elem_of_cons in Hin as [->|Hin]; [congruence|done].
Qed.

Lemma elem_of_keys (m : gmap string ExposedThing) name :
  name ∈ keys m <-> is_Some (m !! name).
Proof.
  unfold keys. rewrite list_elem_of_fmap. split.
  - intros ([k t] & -> & Hin). apply elem_of_map_to_list in Hin. by exists t.
  - intros [t Ht]. exists (name, t). split; [done|]. by apply elem_of_map_to_list.
Qed.

(** What [destroy] computes: the registry filtered by id, and whether
    some entry carried the id. *)
Lemma destroy_spec srv thingId :
  things (destroy srv thingId).1
    = filter (fun kv => id kv.2 <> thingId) (things srv)
  /\ exists removed, (destroy srv thingId).2 = Fulfilled removed
     /\ (removed = true <->
         exists name t, things srv !! name = Some t /\ id t = thingId).
Proof.
  unfold destroy.
  destruct (destroy_loop thingId (keys (things srv)) (things srv) None) as [H1 H2].
  cbn [fst snd things set_things]. split.
  - rewrite H1. apply map_filter_ext. intros k v Hk. cbn. split.
    + intros Hn Hv. apply Hn. split; [|done]. apply elem_of_keys. by exists v.
    + intros Hn [_ Hv]. by apply Hn.
  - eexists. split; [done|]. rewrite bool_decide_eq_true, H2. split.
    + intros [[? ?]|(name & t & _ & Ht & Hv)]; [done|]. by exists name, t.
    + intros (name & t & Ht & Hv). right. exists name, t.
      split; [|done]. apply elem_of_keys. by exists t.
Qed.

(** C8: [destroy(thingId)] resolves to true exactly when some registered
    thing has that id; it removes exactly the entries whose thing has the
    id, so no URI of such a thing is listed afterwards and every other
    entry still is; for an id that matches no registered thing it resolves
    to false and leaves the server as it was; and of two calls with a
    registered id the first resolves to true and the second to false. *)
Theorem C8_destroy srv thingId :
  let registered := exists name t, things srv !! name = Some t /\ id t = thingId in
  let srv' := (destroy srv thingId).1 in
  ((destroy srv thingId).2 = Fulfilled true <-> registered)
  /\ (forall name,
        things srv' !! name
        = t ← things srv !! name; if String.eqb (id t) thingId then None else Some t)
  /\ _sock srv' = _sock srv
  /\ (forall u, u ∈ uris srv' <->
        exists address name t,
          address ∈ getAddresses /\ things srv !! name = Some t
          /\ id t <> thingId /\ u = uri srv address name)
  /\ (~ registered -> destroy srv thingId = (srv, Fulfilled false))
  /\ (registered ->
        (destroy srv thingId).2 = Fulfilled true
        /\ (destroy srv' thingId).2 = Fulfilled false).
Proof.
  intros registered srv'.
  destruct (destroy_spec srv thingId) as (Hm & removed & Hr & Hiff).
  fold srv' in Hm.
  assert (Hlook : forall name,
            things srv' !! name
            = t ← things srv !! name; if String.eqb (id t) thingId then None else Some t).
  { intros name. rewrite Hm. apply option_eq. intros v.
    rewrite map_lookup_filter_Some. cbn.
    destruct (things srv !! name) as [t|]; cbn; [|by split; [intros [? _]|]].
    destruct (String.eqb (id t) thingId) eqn:E.
    - apply String.eqb_eq in E. split; [|done]. by intros [[= ->] Hne].
    - apply String.eqb_neq in E. split; [by intros [? _]|].
      intros [= ->]. by split. }
  assert (Hgone : ~ exists name t, things srv' !! name = Some t /\ id t = thingId).
  { intros (name & t & Ht & Hid). rewrite Hm in Ht.
    apply map_lookup_filter_Some in Ht as [_ Hne]. by apply Hne. }
  assert (Hfalse : ~ registered -> destroy srv thingId = (srv, Fulfilled false)).
  { intros Hn. destruct removed; [by destruct Hn; apply Hiff|].
    assert (things srv' = things srv) as Hsame.
    { rewrite Hm. apply map_filter_id. intros k t Hk Hid. apply Hn. by exists k, t. }
    destruct srv as [m sock]. unfold destroy in *. cbn in *.
    rewrite Hr. unfold srv' in Hsame. cbn in Hsame. by rewrite Hsame. }
  split; [|split; [exact Hlook|split; [done|split; [|split; [exact Hfalse|]]]]].
  - rewrite Hr. split.
    + intros [= ->]. by apply Hiff.
    + intros Hreg. f_equal. by apply Hiff.
  - intros u. unfold uris. rewrite list_elem_of_In, in_flat_map. split.
    + intros (address & Ha & Hu). apply in_map_iff in Hu as (name & <- & Hn).
      apply list_elem_of_In, elem_of_keys in Hn as [t Ht].
      rewrite Hm in Ht. apply map_lookup_filter_Some in Ht as [Ht Hne].
      exists address, name, t. by rewrite list_elem_of_In.
    + intros (address & name & t & Ha & Ht & Hne & ->).
      exists address. split; [by apply list_elem_of_In|].
      apply in_map_iff. exists name. split; [done|].
      apply list_elem_of_In, elem_of_keys. exists t.
      rewrite Hm. by apply map_lookup_filter_Some.
  - intros Hreg. split.
    + rewrite Hr. f_equal. by apply Hiff.
    + destruct (destroy_spec srv' thingId) as (_ & removed' & Hr' & Hiff').
      rewrite Hr'. f_equal. destruct removed'; [|done].
      destruct Hgone. by apply Hiff'.
Qed.

End Properties.

(** * Further properties of the server *)

Section Routing.
Context {serdes : ContentSerdes} {helpers : Helpers}.
Open Scope list_scope.

(** ** Paths *)

Lemma split_slash_slashless s : slashless s = true -> split_slash s = [s].
Proof.
  induction s as [|c r IH]; cbn; [done|].
  intros [Hc Hr]%andb_true_iff. apply negb_true_iff in Hc.
  by rewrite Hc, (IH Hr).
Qed.

Lemma split_slash_app s t :
  slashless s = true ->
  split_slash (s ++ String "/" t)%string = s :: split_slash t.
Proof.
  induction s as [|c r IH]; [done|].
  change (String c r ++ String "/" t)%string
    with (String c (r ++ String "/" t)%string). cbn.
  intros [Hc Hr]%andb_true_iff. apply negb_true_iff in Hc.
  by rewrite Hc, (IH Hr).
Qed.

Lemma split_slash_first s : exists w ws, split_slash s = w :: ws.
Proof.
  induction s as [|c r (w & ws & IH)]; cbn; [by eexists _, _|].
  destruct (Ascii.eqb c "/"); [by eexists _, _|]. rewrite IH. by eexists _, _.
Qed.

(** Splitting at the slashes and joining with slashes gives the path
    back, and no segment holds a slash. *)
Lemma split_slash_join s :
  String.concat "/" (split_slash s) = s
  /\ Forall (fun w => slashless w = true) (split_slash s).
Proof.
  induction s as [|c r [IH1 IH2]]; cbn; [by split; [|repeat constructor]|].
  destruct (Ascii.eqb c "/") eqn:Hc.
  - apply Ascii.eqb_eq in Hc as ->.
    destruct (split_slash_first r) as (w & ws & Hr). rewrite Hr in *.
    split; [|by constructor].
    change (String.concat "/" ("" :: w :: ws))
      with ("" ++ "/" ++ String.concat "/" (w :: ws))%string.
    by rewrite IH1.
  - destruct (split_slash_first r) as (w & ws & Hr). rewrite Hr in *.
    split.
    + destruct ws as [|w' ws]; [cbn in *; by rewrite IH1|].
      change (String.concat "/" (String c w :: w' :: ws))
        with (String c (w ++ "/" ++ String.concat "/" (w' :: ws)))%string.
      by rewrite <- IH1.
    + apply Forall_cons in IH2 as [Hw Hws]. constructor; [|done].
      cbn. by rewrite Hc, Hw.
Qed.

Lemma append_empty s : (s ++ "")%string = s.
Proof.
  induction s as [|c r IH]; [done|].
  change (String c r ++ "")%string with (String c (r ++ "")%string).
  by rewrite IH.
Qed.

Lemma slash_app t : ("/" ++ t)%string = String "/" t.
Proof. done. Qed.

Lemma split_slash_rooted t : split_slash (String "/" t) = "" :: split_slash t.
Proof. done. Qed.

(** X1: a decoded path of the shape [/slug/dir/name], with or without
    further segments after [name], addresses [name] in [dir] of [slug]:
    segments beyond the fourth are not looked at. *)
Theorem path_addresses req slug dir name rest
    (Hslug : slashless slug = true) (Hdir : slashless dir = true)
    (Hname : slashless name = true)
    (Hrest : rest = "" \/ exists r, rest = String "/" r)
    (Hpath : decodedPathname (url req)
             = ("/" ++ slug ++ "/" ++ dir ++ "/" ++ name ++ rest)%string) :
  addresses req slug dir name.
Proof.
  unfold addresses. cbv zeta. rewrite Hpath, !slash_app.
  rewrite split_slash_rooted, (split_slash_app slug), (split_slash_app dir) by done.
  split; [done|]. split; [done|]. cbn.
  destruct Hrest as [-> | [r ->]].
  - by rewrite append_empty, split_slash_slashless.
  - by rewrite split_slash_app.
Qed.

(** ** Answers given at once *)

Lemma answered_frozen x ss :
  answered x -> ended (res x) = true ->
  calls (run x ss) = calls x /\ sent (res (run x ss)) = sent (res x).
Proof.
  intros Ha He. split; [by apply answered_run|]. by apply (sealed_run ss).
Qed.

Ltac frozen ss :=
  match goal with
  | |- context [run ?x ss] =>
      let H1 := fresh in let H2 := fresh in
      destruct (answered_frozen x ss) as [H1 H2]; [| |rewrite ?H1, ?H2]
  end.

Lemma answered_set_option k v x : answered x -> answered (set_option k v x).
Proof. unfold answered. open x. by exec. Qed.

Lemma answered_set_code c x : answered x -> answered (set_code c x).
Proof. unfold answered. open x. by exec. Qed.

Lemma answered_res_end body x : answered x -> answered (res_end body x).
Proof. unfold answered. open x. by exec. Qed.

Lemma answered_call c x : answered x -> answered (call c x).
Proof. unfold answered. open x. by exec. Qed.

Lemma route_root srv req contentType slug thing x :
  let segments := split_slash (decodedPathname (url req)) in
  segments !! 1 = Some slug -> slug <> "" ->
  length segments = 2 \/ segments !! 2 = Some "" ->
  things srv !! slug = Some thing ->
  route srv req contentType x = thing_root thing req (call (RegistryGet (Some slug)) x).
Proof.
  intros segments H1 Hs H2 Ht. unfold route. fold segments. rewrite H1.
  rewrite bool_decide_eq_false_2 by congruence.
  cbn [mbind option_bind]. unfold then_ at 1. rewrite Ht.
  destruct H2 as [-> | ->]; [done|].
  rewrite bool_decide_eq_true_2 by done. by rewrite orb_true_r.
Qed.


Lemma listing_keys (l : list string) x :
  let x' := foldl (fun x (_ : string) => call RegistryKeys x) x l in
  res x' = res x /\ calls x' = calls x ++ replicate (length l) RegistryKeys
  /\ (answered x -> answered x').
Proof.
  revert x. induction l as [|a l IH]; intros x; cbn [foldl length replicate].
  - by rewrite app_nil_r.
  - destruct (IH (call RegistryKeys x)) as (H1 & H2 & H3). cbv zeta in *.
    rewrite H1, H2. split; [done|]. split.
    + open x. exec. by rewrite <- app_assoc.
    + intros Hx. by apply H3, answered_call.
Qed.

Lemma res_end_effect body y :
  calls (res_end body y) = calls y ++ [ResEnd body]
  /\ ended (res (res_end body y)) = true
  /\ sent (res (res_end body y))
     = if ended (res y) then sent (res y)
       else sent (res y) ++ [reply (code (res y)) (options (res y)) body].
Proof. open y. exec. by rewrite orb_true_r. Qed.

Lemma length_keys (m : gmap string ExposedThing) : length (keys m) = size m.
Proof. unfold keys. by rewrite length_fmap, length_map_to_list. Qed.


Lemma route_missing srv req contentType x :
  missing srv req ->
  route srv req contentType x
  = not_found (call (RegistryGet (split_slash (decodedPathname (url req)) !! 1)) x).
Proof.
  unfold missing, route. cbv zeta.
  set (segments := split_slash (decodedPathname (url req))).
  intros [Hl Hm]. rewrite bool_decide_eq_false_2 by done. unfold then_ at 1.
  destruct (segments !! 1 ≫= (fun slug => things srv !! slug)) as [thing|]; [|done].
  destruct Hm as (Hlen & Hroot & Hp & Ha & He).
  apply Nat.eqb_neq in Hlen. rewrite Hlen.
  rewrite (bool_decide_eq_false_2 (segments !! 2 = Some "")) by done.
  cbn [orb]. repeat case_bool_decide; try done.
  - by rewrite Hp.
  - by rewrite Ha.
  - by rewrite He.
Qed.


(** ** Answers given when a promise settles *)

Lemma answered_step_sent x s :
  answered x -> sent (res (step x s)) = sent (res x).
Proof.
  intros (Hp & Ht & Hl & Hf). destruct s; cbn [step].
  - unfold on_tick. by rewrite Ht.
  - unfold on_settle. by rewrite Hp, lookup_empty.
  - unfold on_emit. by rewrite Hl.
  - unfold on_finished. rewrite Hf. by open x.
Qed.

Lemma answered_run_sent x ss :
  answered x -> sent (res (run x ss)) = sent (res x).
Proof.
  revert x. induction ss as [|s ss IH]; intros x Hx; [done|].
  unfold run in *. cbn [foldl].
  rewrite IH by (by apply answered_step). by apply answered_step_sent.
Qed.

Lemma resume_one_shot k r y :
  one_shot k -> answered y ->
  answered (resume k r y)
  /\ (exists body, calls (resume k r y) = calls y ++ [ResEnd body])
  /\ length (sent (res (resume k r y))) <= S (length (sent (res y))).
Proof.
  unfold answered. open y. intros Hk (Hp & Ht & Hl & Hf).
  destruct k, r; try done; cbn [resume]; unfold internal_error;
    repeat match goal with
           | |- context [match ?t with Returns _ => _ | Throws _ => _ end] =>
               destruct t
           | |- context [if truthy ?v then _ else _] => destruct (truthy v)
           end; exec;
    (split; [done|]); (split; [by eexists|]);
    match goal with
    | |- context [if ?e then _ else _] => destruct e
    end; rewrite ?length_app; cbn; lia.
Qed.

(** Whatever happens and in whatever order, an exchange that waits for
    one promise of the runtime makes at most one further call, the [end]
    of the response, and sends at most one frame. *)
Lemma one_shot_run c k x0 ss :
  one_shot k -> answered x0 -> sent (res x0) = [] ->
  (calls (run (await c k x0) ss) = calls x0 ++ [c]
   \/ exists body, calls (run (await c k x0) ss) = calls x0 ++ [c; ResEnd body])
  /\ length (sent (res (run (await c k x0) ss))) <= 1.
Proof.
  intros Hk Hx0 Hs0.
  set (waiting := fun y : Exchange =>
         promises y = <[fresh x0 := k]> ∅ /\ calls y = calls x0 ++ [c]
         /\ sent (res y) = [] /\ oInterval y = None /\ listener y = None
         /\ finishListeners (res y) = [LogReply]).
  set (done_ := fun y : Exchange =>
         answered y /\ (exists body, calls y = calls x0 ++ [c; ResEnd body])
         /\ length (sent (res y)) <= 1).
  assert (forall y, waiting y \/ done_ y ->
            (calls y = calls x0 ++ [c]
             \/ exists body, calls y = calls x0 ++ [c; ResEnd body])
            /\ length (sent (res y)) <= 1) as Hfinal.
  { intros y [(_ & Hc & Hs & _)|(_ & Hc & Hs)].
    - split; [by left|]. rewrite Hs. cbn. lia.
    - split; [by right|done]. }
  apply Hfinal. clear Hfinal.
  assert (waiting (await c k x0) \/ done_ (await c k x0)) as Hstart.
  { left. destruct Hx0 as (Hp & Ht & Hl & Hf). unfold waiting.
    revert Hp Ht Hl Hf Hs0. open x0. exec. by intros -> -> -> -> ->. }
  revert Hstart. generalize (await c k x0). intros y Hy.
  revert y Hy. induction ss as [|s ss IH]; intros y Hy; [done|].
  unfold run in *. cbn [foldl]. apply IH. clear IH.
  destruct Hy as [(Hp & Hc & Hs & Ht & Hl & Hf)|(Ha & Hc & Hs)].
  - destruct s; cbn [step].
    + left. unfold on_tick. by rewrite Ht.
    + unfold on_settle. rewrite Hp, lookup_insert.
      case_decide as Heq; [|rewrite lookup_empty; by left]. right.
      assert (answered (forget p y)) as Hfy.
      { unfold answered. revert Hp Ht Hl Hf. subst p. open y. exec.
        intros -> -> -> ->. by rewrite delete_insert_eq, delete_empty. }
      destruct (resume_one_shot k r (forget p y) Hk Hfy) as (Ha & [b Hb] & Hlen).
      split; [done|]. split.
      * exists b. rewrite Hb.
        assert (calls (forget p y) = calls y) as -> by (by open y).
        by rewrite Hc, <- app_assoc.
      * assert (sent (res (forget p y)) = sent (res y)) as Hse by (by open y).
        rewrite Hse, Hs in Hlen. cbn in Hlen. lia.
    + left. unfold on_emit. by rewrite Hl.
    + left. unfold on_finished. rewrite Hf. cbn [foldl run_listener].
      unfold waiting. revert Hp Hc Hs Ht Hl Hf. open y. by exec.
  - right. destruct (answered_step y s Ha) as [Ha' Hc'].
    split; [done|]. rewrite Hc'. split; [done|].
    by rewrite answered_step_sent.
Qed.

Lemma settle_awaited c k r x0 :
  promises x0 = ∅ ->
  step (await c k x0) (Settle (fresh x0) r)
  = resume k r (forget (fresh x0) (await c k x0)).
Proof.
  intros Hp. cbn [step]. unfold on_settle.
  assert (promises (await c k x0) !! fresh x0 = Some k) as ->; [|done].
  open x0. exec. by rewrite lookup_insert_eq.
Qed.

Lemma forget_awaited c k x0 :
  answered x0 -> answered (forget (fresh x0) (await c k x0)).
Proof.
  unfold answered. open x0. exec. intros (-> & -> & -> & ->).
  by rewrite delete_insert_eq, delete_empty.
Qed.

Lemma route_action srv req contentType slug name thing action x :
  addresses req slug ACTION_DIR name -> slug <> "" ->
  things srv !! slug = Some thing ->
  actions thing !! name = Some action ->
  route srv req contentType x
  = on_action contentType req
      {| ar_thing := thing; ar_name := name; ar_action := action |}
      (call (RegistryGet (Some slug)) x).
Proof.
  intros (H1 & H2 & H3) Hs Ht Ha.
  rewrite (route_to_thing srv req contentType slug ACTION_DIR thing) by done.
  cbv zeta. rewrite H3. cbn [js_key].
  rewrite bool_decide_eq_false_2 by done.
  rewrite bool_decide_eq_true_2 by done. by rewrite Ha.
Qed.




End Routing.

(** * Further properties of observations *)

Section Streams.
Context {serdes : ContentSerdes} {helpers : Helpers}.
Open Scope list_scope.

Lemma emit_serialized ref d content x :
  listener x = Some ref -> ended (res x) = false ->
  serialize_event ref d = Returns content ->
  calls (step x (Emit d)) = calls x ++ [ResWrite (c_body content)]
  /\ (exists f, sent (res (step x (Emit d))) = sent (res x) ++ [f]
                /\ notifies f content)
  /\ listener (step x (Emit d)) = Some ref
  /\ ended (res (step x (Emit d))) = false.
Proof.
  intros Hl He Hs. cbn [step]. unfold on_emit, on_data. rewrite Hl, Hs.
  revert Hl He. open x. exec. intros -> ->.
  split; [done|]. split; [|done]. eexists. split; [done|].
  unfold notifies. cbn. by rewrite lookup_insert_eq.
Qed.

(** X8: while the runtime holds the callback and the response is open,
    the events the runtime delivers are written one frame each, in the
    order of delivery, with status 2.05, the serialised data as body and
    its type as Content-Format; the callback stays registered and the
    response stays open. *)
Theorem events_in_order ref x ds cs
    (Hl : listener x = Some ref) (He : ended (res x) = false)
    (Hser : Forall2 (fun d content => serialize_event ref d = Returns content) ds cs) :
  let x' := run x (Emit <$> ds) in
  calls x' = calls x ++ ((fun content => ResWrite (c_body content)) <$> cs)
  /\ (exists frames, sent (res x') = sent (res x) ++ frames
                     /\ Forall2 notifies frames cs)
  /\ listener x' = Some ref /\ ended (res x') = false.
Proof.
  cbv zeta. revert x Hl He.
  induction Hser as [|d content ds cs Hd Hser IH]; intros x Hl He.
  - cbn. rewrite app_nil_r. split; [done|]. split; [|done].
    exists []. by rewrite app_nil_r.
  - cbn [fmap list_fmap]. unfold run. cbn [foldl]. fold (run (step x (Emit d)) (Emit <$> ds)).
    destruct (emit_serialized ref d content x Hl He Hd) as (Hc & (f & Hs & Hf) & Hl' & He').
    destruct (IH _ Hl' He') as (Hc2 & (frames & Hs2 & Hfs) & Hl2 & He2).
    split; [by rewrite Hc2, Hc, <- app_assoc|].
    split; [|done]. exists (f :: frames).
    split; [by rewrite Hs2, Hs, <- app_assoc|by constructor].
Qed.

(** ** The timer *)

Lemma reads_then f g :
  (forall x, List.filter is_read (calls (f x)) = List.filter is_read (calls x)) ->
  (forall x, List.filter is_read (calls (g x)) = List.filter is_read (calls x)) ->
  forall x, List.filter is_read (calls ((f >>> g) x)) = List.filter is_read (calls x).
Proof. intros Hf Hg x. unfold then_. by rewrite Hg, Hf. Qed.

Lemma reads_resume k r x :
  List.filter is_read (calls (resume k r x)) = List.filter is_read (calls x).
Proof.
  open x.
  destruct k, r; cbn [resume]; unfold internal_error;
    repeat match goal with
           | |- context [match ?t with Returns _ => _ | Throws _ => _ end] =>
               destruct t
           | |- context [if truthy ?v then _ else _] => destruct (truthy v)
           end; exec; rewrite ?List.filter_app; cbn; by rewrite ?app_nil_r.
Qed.

Lemma reads_listeners ls : forall x,
  List.filter is_read (calls (foldl run_listener x ls))
  = List.filter is_read (calls x)
  /\ (idle_timer x -> idle_timer (foldl run_listener x ls)).
Proof.
  induction ls as [|l ls IH]; intros x; [done|]. cbn [foldl].
  destruct (IH (run_listener x l)) as [H1 H2]. rewrite H1. split.
  - open x. destruct l; cbn [run_listener]; exec;
      rewrite ?List.filter_app; cbn; by rewrite ?app_nil_r.
  - intros Hx. apply H2. revert Hx. unfold idle_timer. open x.
    destruct l; cbn [run_listener]; exec; try done.
    intros Hx t. destruct oInterval0 as [t0|]; [|done].
    cbn. by intros [= <-].
Qed.

(** With a cleared timer nothing reads the property any more, and the
    timer stays cleared. *)
Lemma idle_step x s :
  idle_timer x ->
  idle_timer (step x s)
  /\ List.filter is_read (calls (step x s)) = List.filter is_read (calls x).
Proof.
  intros Hx. destruct s; cbn [step].
  - unfold on_tick. destruct (oInterval x) as [t|] eqn:Ht; [|done].
    by rewrite (Hx t Ht).
  - unfold on_settle. destruct (promises x !! p) as [k|]; [|done]. split.
    + assert (oInterval (resume k r (forget p x)) = oInterval x) as Ho.
      { open x.
        destruct k, r; cbn [resume]; unfold internal_error;
          repeat match goal with
                 | |- context [match ?t with Returns _ => _ | Throws _ => _ end] =>
                     destruct t
                 | |- context [if truthy ?v then _ else _] => destruct (truthy v)
                 end; by exec. }
      unfold idle_timer. by rewrite Ho.
    + rewrite reads_resume. by open x.
  - unfold on_emit. destruct (listener x) as [ref|]; [|done].
    unfold on_data. revert Hx. unfold idle_timer. open x.
    destruct (serialize_event ref d); exec;
      rewrite ?List.filter_app; cbn; by rewrite ?app_nil_r.
  - unfold on_finished.
    destruct (reads_listeners (finishListeners (res x)) (with_res close x))
      as [H1 H2].
    split; [apply H2; revert Hx; unfold idle_timer; by open x|].
    rewrite H1. by open x.
Qed.

Lemma idle_run ss : forall x,
  idle_timer x ->
  idle_timer (run x ss)
  /\ List.filter is_read (calls (run x ss)) = List.filter is_read (calls x).
Proof.
  induction ss as [|s ss IH]; intros x Hx; [done|].
  unfold run in *. cbn [foldl].
  destruct (idle_step x s Hx) as [H1 H2].
  destruct (IH _ H1) as [H3 H4]. split; [done|]. by rewrite H4.
Qed.



End Streams.

(** * Further properties of the registry *)

Section Registry.
Context {serdes : ContentSerdes} {helpers : Helpers}.
Open Scope list_scope.

Lemma bound_start thing : bound 0 thing thing.
Proof.
  unfold bound. split; [done|]. split; [done|].
  split; [|split]; intros name.
  - destruct (properties thing !! name) as [p|]; [|done].
    exists p, []. unfold property_extended. by rewrite app_nil_r.
  - destruct (actions thing !! name) as [a|]; [|done].
    exists a, []. unfold action_extended. by rewrite app_nil_r.
  - destruct (events thing !! name) as [e|]; [|done].
    exists e, []. unfold event_extended. by rewrite app_nil_r.
Qed.

Lemma bound_step srv urlPath tdTemplate address type n thing thing' :
  bound n thing thing' ->
  bound (S n) thing (bind_forms srv urlPath tdTemplate address type thing').
Proof.
  intros (Hid & Htitle & Hp & Ha & He). unfold bound, bind_forms. cbn.
  split; [done|]. split; [done|]. split; [|split]; intros name.
  - specialize (Hp name). rewrite map_lookup_imap.
    destruct (properties thing !! name) as [p|]; [|by rewrite Hp].
    destruct Hp as (p' & new & -> & (H1 & H2 & H3 & H4 & H5) & Hlen & Hop).
    cbn. eexists _, (new ++ [_]). split; [done|]. split.
    + unfold property_extended. cbn. by rewrite H5, app_assoc.
    + rewrite length_app. cbn. split; [lia|].
      apply Forall_app. split; [done|]. constructor; [|done].
      cbn. unfold property_ops. by rewrite H1, H2, H3.
  - specialize (Ha name). rewrite map_lookup_imap.
    destruct (actions thing !! name) as [a|]; [|by rewrite Ha].
    destruct Ha as (a' & new & -> & (H1 & H2 & H3) & Hlen & Hop).
    cbn. eexists _, (new ++ [_]). split; [done|]. split.
    + unfold action_extended. cbn. by rewrite H3, app_assoc.
    + rewrite length_app. cbn. split; [lia|].
      apply Forall_app. split; [done|]. by constructor.
  - specialize (He name). rewrite map_lookup_imap.
    destruct (events thing !! name) as [e|]; [|by rewrite He].
    destruct He as (e' & new & -> & (H1 & H2) & Hlen & Hop).
    cbn. eexists _, (new ++ [_]). split; [done|]. split.
    + unfold event_extended. cbn. by rewrite H2, app_assoc.
    + rewrite length_app. cbn. split; [lia|].
      apply Forall_app. split; [done|]. by constructor.
Qed.

Lemma bound_types srv urlPath tdTemplate address types : forall n thing thing',
  bound n thing thing' ->
  bound (length types + n) thing
    (foldl (fun thing type => bind_forms srv urlPath tdTemplate address type thing)
       thing' types).
Proof.
  induction types as [|type types IH]; intros n thing thing' Hb; [done|].
  cbn [foldl length]. replace (S (length types) + n) with (length types + S n) by lia.
  by apply IH, bound_step.
Qed.

Lemma bound_addresses srv urlPath tdTemplate types addresses : forall n thing thing',
  bound n thing thing' ->
  bound (length addresses * length types + n) thing
    (foldl (fun thing address =>
              foldl (fun thing type =>
                       bind_forms srv urlPath tdTemplate address type thing)
                thing types)
       thing' addresses).
Proof.
  induction addresses as [|address addresses IH]; intros n thing thing' Hb; [done|].
  cbn [foldl length].
  replace (S (length addresses) * length types + n)
    with (length addresses * length types + (length types + n)) by lia.
  by apply IH, bound_types.
Qed.

Lemma expose_running srv thing tdTemplate :
  getPort srv <> (-1)%Z ->
  expose srv thing tdTemplate
  = (set_things (<[urlPath_of srv thing :=
                     fill_in_binding_data srv (urlPath_of srv thing) tdTemplate thing]>
                   (things srv)) srv,
     fill_in_binding_data srv (urlPath_of srv thing) tdTemplate thing,
     Fulfilled tt).
Proof.
  intros Hport. unfold expose. apply Z.eqb_neq in Hport. by rewrite Hport.
Qed.


(** X12: the operations of the forms that [expose] gives a property: they
    allow writing exactly when the property is not read-only, reading
    exactly when it is read-only or not write-only (a property flagged
    both ways is readable only), and observing exactly when it is
    observable. *)
Theorem exposed_property_operations srv thing tdTemplate name p p' f
    (Hport : getPort srv <> (-1)%Z)
    (Hp : properties thing !! name = Some p)
    (Hp' : properties (expose srv thing tdTemplate).1.2 !! name = Some p')
    (Hf : f ∈ drop (length (p_forms p)) (p_forms p')) :
  ("writeproperty" ∈ op f <-> readOnly p = false)
  /\ ("readproperty" ∈ op f <-> readOnly p = true \/ writeOnly p = false)
  /\ ("observeproperty" ∈ op f <-> observable p = true)
  /\ ("unobserveproperty" ∈ op f <-> observable p = true).
Proof.
  rewrite (expose_running srv thing tdTemplate Hport) in Hp'. cbn in Hp'.
  assert (bound (length getAddresses * length getOfferedMediaTypes + 0) thing
            (fill_in_binding_data srv (urlPath_of srv thing) tdTemplate thing))
    as (_ & _ & Hb & _) by apply bound_addresses, bound_start.
  specialize (Hb name). rewrite Hp in Hb.
  destruct Hb as (q & new & Hq & (_ & _ & _ & _ & Hforms) & _ & Hops).
  assert (q = p') as -> by congruence.
  rewrite Hforms, drop_app_length in Hf.
  rewrite Forall_forall in Hops. rewrite (Hops f Hf). unfold property_ops.
  destruct (readOnly p), (writeOnly p), (observable p); cbn;
    rewrite ?elem_of_cons, ?elem_of_nil; repeat split;
    intros; try done; try (by intuition discriminate); intuition.
Qed.

(** X13: [destroy] with the id of a thing that was just exposed resolves
    to true and leaves no thing of that id; every entry that is left was
    in the registry before the thing was exposed; and when no thing of the
    id or under the slug was registered before, the server is as it was
    before [expose]. *)
Theorem expose_then_destroy srv thing tdTemplate
    (Hport : getPort srv <> (-1)%Z) :
  let srv1 := (expose srv thing tdTemplate).1.1 in
  let srv2 := (destroy srv1 (id thing)).1 in
  (destroy srv1 (id thing)).2 = Fulfilled true
  /\ (forall name t, things srv2 !! name = Some t ->
        id t <> id thing /\ things srv !! name = Some t)
  /\ ((forall name t, things srv !! name = Some t -> id t <> id thing) ->
      things srv !! urlPath_of srv thing = None ->
      srv2 = srv).
Proof.
  cbv zeta. rewrite (expose_running srv thing tdTemplate Hport). cbn [fst].
  set (slug := urlPath_of srv thing).
  set (thing' := fill_in_binding_data srv slug tdTemplate thing).
  set (srv1 := set_things (<[slug := thing']> (things srv)) srv).
  assert (id thing' = id thing) as Hid.
  { assert (bound (length getAddresses * length getOfferedMediaTypes + 0) thing thing')
      as (H & _) by apply bound_addresses, bound_start. done. }
  destruct (destroy_spec srv1 (id thing)) as (Hm & removed & Hr & Hiff).
  split; [|split].
  - rewrite Hr. f_equal. apply Hiff. exists slug, thing'.
    split; [|done]. apply lookup_insert_eq.
  - intros name t Ht. rewrite Hm in Ht.
    apply map_lookup_filter_Some in Ht as [Ht Hne]. cbn in *. split; [done|].
    rewrite lookup_insert in Ht. case_decide; [|done].
    injection Ht as <-. congruence.
  - intros Hfresh Hnone.
    assert (forall a b, things a = things b -> _sock a = _sock b -> a = b) as Heq.
    { intros [? ?] [? ?]. cbn. by intros -> ->. }
    apply Heq; [|done]. rewrite Hm. unfold srv1. cbn [things set_things].
    apply map_eq. intros k. apply option_eq. intros t.
    rewrite map_lookup_filter_Some, lookup_insert. cbn. case_decide as Hk.
    + subst k. rewrite Hnone. split; [|done]. intros [[= <-] Hne]. congruence.
    + split; [by intros [? _]|]. intros Ht. split; [done|]. by eapply Hfresh.
Qed.


End Registry.

(** * Properties of the client *)

Section ClientProperties.
Import Client.
Context {platform : Platform}.
Open Scope list_scope.

Lemma setOptions_frame (l : list (string * string)) : forall req,
  let req' := foldl (fun req o => setOption o.1 o.2 req) req l in
  config req' = config req /\ written req' = written req
  /\ flushed req' = flushed req.
Proof.
  induction l as [|o l IH]; intros req; [done|].
  cbn [foldl]. cbv zeta in *. by destruct (IH (setOption o.1 o.2 req)) as (-> & -> & ->).
Qed.

Lemma setOptions_headers (l : list (string * string)) k v : forall req,
  headers (foldl (fun req o => setOption o.1 o.2 req) req l) !! k = Some v ->
  (k, v) ∈ l \/ headers req !! k = Some v.
Proof.
  induction l as [|[k' v'] l IH]; intros req H; [by right|].
  cbn [foldl] in H. apply IH in H as [H|H].
  - left. by right.
  - cbn in H. rewrite lookup_insert in H. case_decide as Hk; [|by right].
    injection H as <-. subst k'. left. by left.
Qed.

Lemma generateRequest_spec c form dflt observable :
  let r := generateRequest c form dflt observable in
  r.1 = (uriToOptions c (href form)).1
  /\ c_agent (config r.2) = agent r.1
  /\ port (config r.2) = port (uriToOptions c (href form)).2
  /\ method (config r.2)
     = Some match coap_methodCode form with
            | Some 1%Z => "GET"
            | Some 2%Z => "POST"
            | Some 3%Z => "PUT"
            | Some 4%Z => "DELETE"
            | _ => dflt
            end
  /\ observe (config r.2) = observable
  /\ multicast (config r.2) = false /\ confirmable (config r.2) = true
  /\ written r.2 = [] /\ flushed r.2 = false
  /\ forall k v, headers r.2 !! k = Some v -> from_form form k v.
Proof.
  unfold generateRequest, from_form. cbn.
  destruct (contentType form) as [t|];
    destruct (coap_options form) as [|l|k' v']; cbn [fst snd].
  all: try match goal with |- context [foldl ?f ?r ?l] =>
      destruct (setOptions_frame l r) as (Hc & Hw & Hf);
      pose proof (fun k v => setOptions_headers l k v r) as Hh;
      cbv zeta in Hc, Hw, Hf; rewrite Hc, Hw, Hf end.
  all: cbn; repeat split; try done.
  all: intros k v H; try (apply Hh in H as [H|H]; [by right|]); cbn in H.
  all: repeat (rewrite lookup_insert in H; case_decide;
               [injection H as <-; subst; by (left + right)|]).
  all: done.
Qed.

(** X15: [writeResource] on a content whose stream was read sends one
    request that carries the buffer and the content type of the content
    as Content-Format, whatever options the form names; every other
    option of the request comes from the form.  The method is the one the
    form's code selects and PUT otherwise, and the promise is pending.
    When the stream fails, the promise is rejected with that error and no
    request is made. *)
Theorem write_request c form content :
  let st := (writeResource c form content).2 in
  match body content with
  | Fulfilled buffer =>
      exists req, request st = Some req
        /\ headers req !! "Content-Format" = Some (type content)
        /\ (forall k v, headers req !! k = Some v ->
              k = "Content-Format" \/ from_form form k v)
        /\ written req = [buffer] /\ flushed req = true
        /\ method (config req)
           = Some match coap_methodCode form with
                  | Some 1%Z => "GET"
                  | Some 2%Z => "POST"
                  | Some 4%Z => "DELETE"
                  | _ => "PUT"
                  end
        /\ promise st = None
  | Rejected err =>
      request st = None /\ promise st = Some (Rejected err)
      /\ (writeResource c form content).1 = c
  end.
Proof.
  cbv zeta. unfold writeResource. destruct (body content) as [buffer|err]; [|done].
  destruct (generateRequest_spec c form "PUT" false)
    as (_ & _ & _ & Hm & _ & _ & _ & Hw & _ & Hh).
  destruct (generateRequest c form "PUT" false) as [c' req]. cbn in *.
  eexists. split; [done|]. cbn. rewrite lookup_insert_eq, Hw, Hm.
  repeat split; try done.
  - intros k v. rewrite lookup_insert. case_decide; [by left|].
    intros Hk. right. by apply Hh.
  - destruct (coap_methodCode form) as [[|p|p]|]; try done.
    do 3 (try destruct p as [p|p|]; try done).
Qed.

(** X16: [invokeResource] without a content rejects with a type error:
    no request is made, the client is as it was and no event changes the
    outcome.  So every request that [invokeResource] sends carries the
    buffer of a content and its type as Content-Format, and a response to
    it resolves the promise with the Content-Format of the response as it
    is, absent or empty as it may be. *)
Theorem invoke_request c form content :
  let st := (invokeResource c form content).2 in
  (content = None ->
     request st = None /\ promise st = Some (Rejected TypeError)
     /\ (invokeResource c form content).1 = c
     /\ forall es, events st es = st)
  /\ (forall req, request st = Some req ->
        exists content' buffer, content = Some content'
          /\ body content' = Fulfilled buffer
          /\ headers req !! "Content-Format" = Some (type content')
          /\ written req = [buffer] /\ flushed req = true
          /\ forall Content_Format payload es,
               promise (events st (Response Content_Format payload :: es))
               = Some (Fulfilled (Payload Content_Format payload))).
Proof.
  cbv zeta. split.
  - intros ->. cbn. repeat split; try done.
    intros es. by induction es as [|e es IH].
  - intros req Hreq. destruct content as [content'|]; [|done].
    unfold invokeResource in *. destruct (body content') as [buffer|err] eqn:Hbody; [|done].
    exists content', buffer. split; [done|]. split; [done|].
    unfold invoke_read in *.
    destruct (generateRequest_spec c form "POST" false)
      as (_ & _ & _ & _ & _ & _ & _ & Hw & _ & _).
    destruct (generateRequest c form "POST" false) as [c' req0]. cbn in *.
    injection Hreq as <-. cbn. rewrite lookup_insert_eq, Hw.
    repeat split; try done.
    intros cf payload es.
    match goal with |- promise (foldl _ ?st0 es) = _ =>
      assert (forall st, promise st = promise st0 -> promise (foldl on_event st es) = promise st0)
        as H end.
    { clear. induction es as [|e es IH]; intros st Hst; [done|].
      cbn [foldl]. apply IH. rewrite <- Hst. unfold on_event.
      destruct (request st); [|done]. cbn in Hst.
      destruct e; unfold on_response, on_error, on_data, on_unsubscribe,
        resolve, reject, settle; cbn.
      - by destruct (operation st); cbn; rewrite Hst.
      - by destruct (operation st); cbn; rewrite ?Hst.
      - by destruct (streams st !! k).
      - destruct (operation st); try done. rewrite Hst. done. }
    by apply H.
Qed.

Lemma settled_stays st es s :
  promise st = Some s -> promise (events st es) = Some s.
Proof.
  revert st. induction es as [|e es IH]; intros st Hst; [done|].
  cbn [events foldl]. apply IH. unfold on_event.
  destruct (request st); [|done].
  destruct e; unfold on_response, on_error, on_data, on_unsubscribe,
    resolve, reject, settle; cbn.
  - by destruct (operation st); cbn; rewrite Hst.
  - by destruct (operation st); cbn; rewrite ?Hst.
  - by destruct (streams st !! k).
  - destruct (operation st); try done. rewrite Hst.
    destruct s as [[]|]; try done. by destruct (closed st).
Qed.

Lemma quiet_ignored st es :
  subscribing (operation st) = false -> streams st = [] ->
  Forall (fun e => quiet e = true) es -> events st es = st.
Proof.
  intros Ho Hs. induction 1 as [|e es He _ IH]; [done|].
  cbn [events foldl]. replace (on_event st e) with st; [done|].
  unfold on_event. destruct (request st); [|done].
  destruct e; try done.
  - unfold on_data. by rewrite Hs.
  - unfold on_unsubscribe. by destruct (operation st).
Qed.

(** X17: the promise of [readResource] is settled by the first response
    or failure of the request and by nothing else: it is pending until
    then, a response resolves it with the payload and with the
    Content-Format of the response, or that of the form when the response
    has none or an empty one, a failure rejects it, and no later event
    changes it. *)
Theorem read_result c form quiet_events es
    (Hquiet : Forall (fun e => quiet e = true) quiet_events) :
  let st := (readResource c form).2 in
  promise (events st quiet_events) = None
  /\ (forall Content_Format payload,
        promise (events st (quiet_events ++ Response Content_Format payload :: es))
        = Some (Fulfilled
                  (Payload (if truthy_str Content_Format then Content_Format
                            else contentType form) payload)))
  /\ (forall err,
        promise (events st (quiet_events ++ Failed err :: es))
        = Some (Rejected err)).
Proof.
  cbv zeta. unfold readResource.
  destruct (generateRequest c form "GET" false) as [c' req]. cbn [snd].
  set (st := pending Reading form (Some (end_ req)) None).
  assert (events st quiet_events = st) as Hq by by apply quiet_ignored.
  split; [by rewrite Hq|]. split.
  - intros cf payload. unfold events in *. rewrite foldl_app, Hq. cbn [foldl].
    by apply settled_stays.
  - intros err. unfold events in *. rewrite foldl_app, Hq. cbn [foldl].
    by apply settled_stays.
Qed.

Lemma subscribed_step form has_error has_complete es st e :
  subscribed_after form has_error has_complete es st ->
  subscribed_after form has_error has_complete (es ++ [e]) (on_event st e).
Proof.
  intros (Ho & Hf & [req Hr] & Hp & He & Hu & Hs & Hn & Hc & Hcl).
  unfold on_event. rewrite Hr.
  assert (Forall (fun t => t = contentType form
                   \/ (truthy_str t = true /\ exists p, Response t p ∈ es ++ [e]))
            (streams st)) as Hs'.
  { eapply Forall_impl; [exact Hs|]. intros t [?|[? [p ?]]]; [by left|].
    right. split; [done|]. exists p. rewrite elem_of_app. by left. }
  unfold subscribed_after.
  rewrite existsb_app, omap_app. cbn [existsb omap].
  destruct e as [cf payload|err|k payload|].
  - unfold on_response, resolve, settle. rewrite Ho. cbn.
    rewrite Hp, orb_true_r, app_nil_r, <- He, Hu, Hc, Hf.
    repeat split; try done; try (by destruct (existsb is_response es)).
    + apply Forall_app. split; [done|]. constructor; [|done].
      unfold received_type. destruct (truthy_str cf) eqn:Hcf; [|by left].
      right. split; [done|]. exists payload. rewrite elem_of_app. right. by left.
    + eapply Forall_impl; [exact Hn|]. intros n H. rewrite elem_of_app. by left.
  - unfold on_error. rewrite Ho. cbn. rewrite Hp, orb_false_r, Hc.
    repeat split; try done.
    all: rewrite ?He; destruct has_error; rewrite ?length_app, ?Hu; cbn;
      try done; lia.
  - unfold on_data. cbn. rewrite orb_false_r, app_nil_r.
    destruct (streams st !! k) as [t|] eqn:Hk; cbn.
    + rewrite Ho, Hf, Hr, Hp, He, Hu, Hc. repeat split; try done.
      apply Forall_app. split; [done|]. constructor; [|done]. cbn.
      by eapply list_elem_of_lookup_2.
    + rewrite Ho, Hf, Hr, Hp, He, Hu, Hc. repeat split; done.
  - unfold on_unsubscribe. cbn. rewrite orb_false_r, app_nil_r, Ho, Hp.
    destruct (existsb is_response es) eqn:Hex.
    + destruct (closed st) eqn:Hclosed.
      * repeat split; rewrite ?Hclosed; try done; by eexists.
      * cbn in *. rewrite ?Hc.
        repeat split; try done; try (by eexists); by destruct has_complete.
    + repeat split; try done; by eexists.
Qed.

Lemma subscribed_events form has_error has_complete es : forall es0 st,
  subscribed_after form has_error has_complete es0 st ->
  subscribed_after form has_error has_complete (es0 ++ es) (events st es).
Proof.
  induction es as [|e es IH]; intros es0 st H; [by rewrite app_nil_r|].
  cbn [events foldl]. replace (es0 ++ e :: es) with ((es0 ++ [e]) ++ es)
    by by rewrite <- app_assoc.
  by apply IH, subscribed_step.
Qed.

(** X18: the promise of [subscribeResource] is never rejected: after any
    events it is resolved with the subscription exactly when a response
    has come, and pending otherwise.  A failure of the request only calls
    [error], once per failure and in order, or raises a type error when
    no [error] callback was passed.  The request is an observing one
    without a payload.  Every content passed to [next] has the
    Content-Format of a response, if that is not empty, or the content
    type of the form; [complete] is called at most once, and only after a
    response. *)
Theorem subscription_never_rejected c form has_error has_complete es :
  let st := events (subscribeResource c form has_error has_complete).2 es in
  (exists req, request st = Some req /\ observe (config req) = true
     /\ written req = [] /\ flushed req = true)
  /\ promise st = (if existsb is_response es then Some (Fulfilled Subscription) else None)
  /\ error st = (if has_error then omap failure es else [])
  /\ length (uncaught st) = (if has_error then 0 else length (omap failure es))
  /\ Forall (fun n => n.1 = contentType form
                      \/ (truthy_str n.1 = true /\ exists p, Response n.1 p ∈ es))
       (next st)
  /\ complete st <= 1
  /\ (0 < complete st -> has_complete = true /\ existsb is_response es = true).
Proof.
  cbv zeta. unfold subscribeResource.
  destruct (generateRequest_spec c form "GET" true)
    as (_ & _ & _ & _ & Hobs & _ & _ & Hw & _ & _).
  destruct (generateRequest c form "GET" true) as [c' req]. cbn [fst snd] in *.
  set (st0 := pending (Subscribing has_error has_complete) form (Some (end_ req)) None).
  assert (subscribed_after form has_error has_complete [] st0) as H0.
  { unfold subscribed_after, st0. cbn.
    repeat split; try done; try (by eexists); by destruct has_error. }
  apply (subscribed_events _ _ _ es) in H0. cbn [app] in H0.
  destruct H0 as (Ho & Hf & _ & Hp & He & Hu & Hs & Hn & Hc & Hcl).
  split; [|split; [done|split; [done|split; [done|split; [|split]]]]].
  - assert (forall es st, request (events st es) = request st) as Hreq.
    { clear. induction es as [|e es IH]; intros st; [done|].
      cbn [events foldl]. rewrite IH. unfold on_event.
      destruct (request st) eqn:Hr; [|done].
      destruct e; unfold on_response, on_error, on_data, on_unsubscribe,
        resolve, reject, settle.
      - by destruct (operation st).
      - by destruct (operation st).
      - by destruct (streams st !! k).
      - destruct (operation st); try done.
        destruct (promise st) as [[[]|]|]; try done. by destruct (closed st). }
    exists (end_ req). rewrite Hreq. by cbn.
  - eapply Forall_impl; [exact Hn|]. intros n H. cbn in H.
    rewrite Forall_forall in Hs. by apply Hs.
  - rewrite Hc. destruct (closed _ && has_complete); lia.
  - rewrite Hc. destruct (closed _) eqn:Hclosed; cbn; [|lia].
    destruct has_complete; [|lia]. intros _. split; [done|]. by apply Hcl.
Qed.

Lemma perform_client c i :
  (perform c i).1 = c
  \/ (perform c i).1 = (uriToOptions c (href (form (perform c i).2))).1.
Proof.
  destruct i as [f|f content|f [content|]|f|f e co]; cbn;
    unfold readResource, writeResource, invokeResource, invoke_read,
      unlinkResource, subscribeResource.
  - destruct (generateRequest_spec c f "GET" false) as (H & _).
    destruct (generateRequest c f "GET" false). by right.
  - destruct (body content); [|by left].
    destruct (generateRequest_spec c f "PUT" false) as (H & _).
    destruct (generateRequest c f "PUT" false). by right.
  - destruct (body content); [|by left].
    destruct (generateRequest_spec c f "POST" false) as (H & _).
    destruct (generateRequest c f "POST" false). by right.
  - by left.
  - destruct (generateRequest_spec c f "GET" false) as (H & _).
    destruct (generateRequest c f "GET" false). by right.
  - destruct (generateRequest_spec c f "GET" true) as (H & _).
    destruct (generateRequest c f "GET" true). by right.
Qed.

Lemma perform_request c i req :
  request (perform c i).2 = Some req ->
  let st := (perform c i).2 in
  (perform c i).1 = (uriToOptions c (href (form st))).1
  /\ c_agent (config req) = agent (perform c i).1
  /\ port (config req) = port (uriToOptions c (href (form st))).2
  /\ method (config req)
     = Some match coap_methodCode (form st) with
            | Some 1%Z => "GET"
            | Some 2%Z => "POST"
            | Some 3%Z => "PUT"
            | Some 4%Z => "DELETE"
            | _ => default_method (operation st)
            end
  /\ observe (config req) = subscribing (operation st)
  /\ multicast (config req) = false /\ confirmable (config req) = true
  /\ flushed req = true
  /\ (written req <> [] -> operation st = Writing \/ operation st = Invoking).
Proof.
  destruct i as [f|f content|f [content|]|f|f e co]; unfold perform;
    unfold readResource, writeResource, invokeResource, invoke_read,
      unlinkResource, subscribeResource.
  all: try destruct (body content); try (by cbn).
  all: match goal with |- context [@generateRequest _ ?c ?f ?dflt ?o] =>
         destruct (generateRequest_spec c f dflt o)
           as (H1 & H2 & H3 & H4 & H5 & H6 & H7 & H8 & _);
         destruct (generateRequest c f dflt o)
       end.
  all: cbn [fst snd] in *; intros [= <-]; cbn.
  all: repeat split; rewrite ?H8; try done; auto.
Qed.

(** X19: the request line of every operation.  A method code of 1 to 4
    in the form selects GET, POST, PUT or DELETE; with any other code or
    none the method is PUT for [writeResource], POST for
    [invokeResource] and GET for the other three.  The request observes
    exactly for [subscribeResource], is confirmable and not multicast,
    was ended, and carries a payload only for a write or an invocation.
    The port is 5683 when the URL of the form names none. *)
Theorem request_line c i req
    (Hreq : request (perform c i).2 = Some req) :
  let st := (perform c i).2 in
  method (config req)
  = Some match coap_methodCode (form st) with
         | Some 1%Z => "GET"
         | Some 2%Z => "POST"
         | Some 3%Z => "PUT"
         | Some 4%Z => "DELETE"
         | _ => default_method (operation st)
         end
  /\ observe (config req) = subscribing (operation st)
  /\ multicast (config req) = false /\ confirmable (config req) = true
  /\ flushed req = true
  /\ (written req <> [] -> operation st = Writing \/ operation st = Invoking)
  /\ (truthy_str (u_port (url_parse (href (form st)))) = false ->
      port (config req) = Some 5683%Z).
Proof.
  destruct (perform_request c i req Hreq)
    as (_ & _ & Hport & Hm & Ho & Hmc & Hc & Hf & Hw).
  cbv zeta in *. repeat split; try done.
  intros Hp. rewrite Hport. unfold uriToOptions. cbn [snd port].
  destruct (u_port (url_parse (href (form (perform c i).2)))) as [p|]; [|done].
  by rewrite Hp.
Qed.

(** X20: a client made for a server sends every request through an agent
    on the socket of that server, whatever operations it performed
    before; the agent is the one the client holds afterwards, and its
    type is udp6 or udp4 by the host of the URL of this request, not by
    that of an earlier one. *)
Theorem socket_reused server (before : list Invocation) i req :
  let c := foldl (fun c i => (perform c i).1) (new server) before in
  request (perform c i).2 = Some req ->
  socket (c_agent (config req)) = server ≫= getSocket
  /\ c_agent (config req) = agent (perform c i).1
  /\ agent_type (c_agent (config req))
     = Some (if net_isIPv6 (u_hostname (url_parse (href (form (perform c i).2))))
             then "udp6" else "udp4").
Proof.
  cbv zeta.
  assert (forall c, socket (agentOptions c) = server ≫= getSocket ->
            socket (agentOptions (foldl (fun c i => (perform c i).1) c before))
            = server ≫= getSocket) as Hinv.
  { induction before as [|j before IH]; intros c Hc; [done|].
    cbn [foldl]. apply IH. destruct (perform_client c j) as [->| ->]; done. }
  specialize (Hinv (new server) eq_refl).
  set (c := foldl _ _ _) in *. intros Hreq.
  destruct (perform_request c i req Hreq) as (Hc & Ha & _).
  cbv zeta in *. rewrite Ha, Hc. cbn. by rewrite Hinv.
Qed.

End ClientProperties.

(** * The statements at the lamp *)

Section AtTheLamp.
#[local] Existing Instances Demo.codec Demo.helpers.
Open Scope list_scope.












Lemma C8_destroy_witness :
  (destroy Lamp.server "urn:dev:lamp").2 = Fulfilled true
  /\ (destroy (destroy Lamp.server "urn:dev:lamp").1 "urn:dev:lamp").2
     = Fulfilled false.
Proof.
  refine (proj2 (proj2 (proj2 (proj2 (proj2
            (C8_destroy Lamp.server "urn:dev:lamp"))))) _).
  exists "lamp", Lamp.lamp. by compute_goal.
Defined.





End AtTheLamp.

(** * The further statements at the lamp *)

Section FurtherAtTheLamp.
#[local] Existing Instances Demo.codec Demo.helpers.
Open Scope list_scope.

(** A path with a trailing segment still addresses the property. *)
Lemma path_addresses_witness :
  addresses (Lamp.get "/lamp/properties/on/extra" None) "lamp" "properties" "on".
Proof.
  apply (path_addresses (Lamp.get "/lamp/properties/on/extra" None)
           "lamp" "properties" "on" "/extra").
  - reflexivity.
  - reflexivity.
  - reflexivity.
  - right. by exists "extra".
  - reflexivity.
Defined.







Lemma events_in_order_witness :
  calls (run Lamp.subscribed [Emit (JNum 1); Emit (JNum 2)])
  = calls Lamp.subscribed ++ [ResWrite "1"; ResWrite "2"].
Proof.
  refine (proj1 (events_in_order Lamp.overheated_ref Lamp.subscribed
                   [JNum 1; JNum 2]
                   [{| c_type := "application/json"; c_body := "1" |};
                    {| c_type := "application/json"; c_body := "2" |}] _ _ _)).
  - by compute_goal.
  - by compute_goal.
  - repeat constructor.
Defined.




Lemma exposed_property_operations_witness :
  let f := {| href := "coap://192.0.2.1:5683/lamp/properties/serial";
              contentType := "application/json"; op := ["readproperty"] |} in
  "writeproperty" ∈ op f <-> readOnly Lamp.serial = false.
Proof.
  refine (proj1 (exposed_property_operations
                   {| things := ∅; _sock := Some 5683%N |} Lamp.lamp None "serial"
                   Lamp.serial
                   {| readOnly := true; writeOnly := false; observable := false;
                      p_schema := "string";
                      p_forms := [{| href := "coap://192.0.2.1:5683/lamp/properties/serial";
                                     contentType := "application/json";
                                     op := ["readproperty"] |}] |}
                   _ _ _ _ _)).
  - discriminate.
  - by compute_goal.
  - by compute_goal.
  - by left.
Defined.

Lemma expose_then_destroy_witness :
  let srv := {| things := ∅; _sock := Some 5683%N |} in
  (destroy (expose srv Lamp.lamp None).1.1 "urn:dev:lamp").2 = Fulfilled true.
Proof.
  refine (proj1 (expose_then_destroy {| things := ∅; _sock := Some 5683%N |}
                   Lamp.lamp None _)).
  discriminate.
Defined.


End FurtherAtTheLamp.

(** * The statements of the client at the desk *)

Section AtTheDesk.
Import Client.
#[local] Existing Instance desk.
Open Scope list_scope.

(** Events of a stream and a late failure change nothing; the response
    has no Content-Format, so the content type is that of the form. *)
Lemma read_result_witness :
  promise (events (readResource (new (Some Lamp.server)) on_form).2
             ([Data 0 "x"; Unsubscribed] ++ Response None "true" :: [Failed "late"]))
  = Some (Fulfilled (Payload (Some "application/json") "true")).
Proof.
  refine (proj1 (proj2 (read_result (new (Some Lamp.server)) on_form
                          [Data 0 "x"; Unsubscribed] [Failed "late"] _))
            None "true").
  by repeat constructor.
Defined.

(** The form asks for Content-Format text/plain; the request carries the
    type of the content. *)
Lemma write_request_witness :
  exists req,
    request (writeResource (new None) toggle_form (json "true")).2 = Some req
    /\ headers req !! "Content-Format" = Some "application/json"
    /\ written req = ["true"].
Proof.
  destruct (write_request (new None) toggle_form (json "true"))
    as (req & H1 & H2 & _ & H3 & _).
  exists req. exact (conj H1 (conj H2 H3)).
Defined.

Lemma invoke_request_witness :
  promise (invokeResource (new None) toggle_form None).2
  = Some (Rejected TypeError).
Proof.
  exact (proj1 (proj2 (proj1 (invoke_request (new None) toggle_form None) eq_refl))).
Defined.

(** Two failures and no response: the promise is pending, and [error]
    was called twice. *)
Lemma subscription_never_rejected_witness :
  let st := events (subscribeResource (new None) on_form true true).2
              [Failed "timeout"; Data 0 "1"; Failed "reset"] in
  promise st = None /\ error st = ["timeout"; "reset"].
Proof.
  pose proof (subscription_never_rejected (new None) on_form true true
                [Failed "timeout"; Data 0 "1"; Failed "reset"])
    as (_ & H1 & H2 & _).
  exact (conj H1 H2).
Defined.

(** The method code 7 selects nothing: the write is a PUT. *)
Lemma request_line_witness :
  exists req,
    request (perform (new None) (WriteOf on_form (json "true"))).2 = Some req
    /\ method (config req) = Some "PUT".
Proof.
  eexists. split; [reflexivity|].
  exact (proj1 (request_line (new None) (WriteOf on_form (json "true")) _ eq_refl)).
Defined.

(** The agent of the second request is on the socket of the lamp's
    server, and its type is that of the host of the second URL. *)
Lemma socket_reused_witness :
  exists req,
    request (perform (perform (new (Some Lamp.server)) (ReadOf toggle_form)).1
               (ReadOf on_form)).2 = Some req
    /\ socket (c_agent (config req)) = Some 5683%N
    /\ agent_type (c_agent (config req)) = Some "udp4".
Proof.
  eexists. split; [reflexivity|].
  pose proof (socket_reused (Some Lamp.server) [ReadOf toggle_form] (ReadOf on_form)
                _ eq_refl) as (H1 & _ & H2).
  exact (conj H1 H2).
Defined.

End AtTheDesk.
